(** * Pixel PokeDex API: normalisation and evolution-chain traversal

    A shallow embedding of [src/main.py] and [src/schemas.py]: the values
    the service receives from [requests]' [r.json()], the schema records of
    [schemas.py], [build_evolution_chain] with its inner [traverse], and
    [normalize_pokemon] with the fetch helpers it calls. *)

From Stdlib Require Import ZArith String Ascii List Lia Floats.
From Stdlib Require Import DecimalString DecimalPos.
From stdpp Require Import base decidable option list gmap strings.

Local Open Scope string_scope.
Local Open Scope Z_scope.
Local Open Scope list_scope.

(** ** Python values

    What [json.loads] produces: [None], [bool], [int], [float], [str],
    [list] and [dict] with [str] keys.  A [dict] keeps its keys in insertion
    order, so it is an association list; [dict_lookup] takes the first
    binding of a key.  A [str] is a string of ASCII characters (the upstream
    slugs and URLs are ASCII); the case and digit tables below treat a
    character above 127 as neither a letter, a digit nor white space, so a
    statement that rests on them is made for strings that are [ascii_only]. *)

Unset Elimination Schemes.
Inductive value : Type :=
| VNone
| VBool (b : bool)
| VInt (n : Z)
| VFloat (f : float)
| VStr (s : string)
| VList (items : list value)
| VDict (kvs : list (string * value)).
Set Elimination Schemes.

(** Exceptions, by class.  [ConnectionError] stands for whatever
    [requests.get] raises when no response arrives, [JSONDecodeError] for
    what [r.json()] raises on a body that is not JSON. *)
Inductive exn : Type :=
| AttributeError
| KeyError
| TypeError
| OverflowError
| ZeroDivisionError
| ValidationError
| ConnectionError
| JSONDecodeError
| RecursionError.

Inductive result (A : Type) : Type :=
| Ok (a : A)
| Raise (e : exn).
Arguments Ok {A} a.
Arguments Raise {A} e.

(** [result] is the exception monad; [x ← m; k] runs [k] unless [m] raised. *)
#[global] Instance result_ret : MRet result := λ A a, Ok a.
#[global] Instance result_bind : MBind result := λ A B k m,
  match m with
  | Ok a => k a
  | Raise e => Raise e
  end.

Fixpoint dict_lookup (key : string) (kvs : list (string * value)) : option value :=
  match kvs with
  | [] => None
  | (k, v) :: rest => if String.eqb k key then Some v else dict_lookup key rest
  end.

(** [with_key key kvs found missing] is [found kvs[key]] when the key is
    bound and [missing] otherwise: [dict_lookup] in continuation style, so
    that a recursive function may be called on the value that is found. *)
Definition with_key {A} (key : string) (kvs : list (string * value))
    (found : value → A) (missing : A) : A :=
  (fix go (kvs : list (string * value)) : A :=
     match kvs with
     | [] => missing
     | (k, v) :: rest => if String.eqb k key then found v else go rest
     end) kvs.

(** [obj.get(key, dflt)]; only a [dict] has a [get] attribute. *)
Definition py_get (obj : value) (key : string) (dflt : value) : result value :=
  match obj with
  | VDict kvs => Ok (default dflt (dict_lookup key kvs))
  | _ => Raise AttributeError
  end.

(** ** String primitives *)

Definition is_space (c : ascii) : bool :=
  let n := nat_of_ascii c in
  ((9 <=? n) && (n <=? 13))%nat || (n =? 32)%nat.

Definition is_digit (c : ascii) : bool :=
  let n := nat_of_ascii c in ((48 <=? n) && (n <=? 57))%nat.

Definition digit_value (c : ascii) : Z := Z.of_nat (nat_of_ascii c) - 48.

Definition is_lower (c : ascii) : bool :=
  let n := nat_of_ascii c in ((97 <=? n) && (n <=? 122))%nat.

Definition is_upper (c : ascii) : bool :=
  let n := nat_of_ascii c in ((65 <=? n) && (n <=? 90))%nat.

Definition to_upper (c : ascii) : ascii :=
  if is_lower c then ascii_of_nat (nat_of_ascii c - 32) else c.

Definition to_lower (c : ascii) : ascii :=
  if is_upper c then ascii_of_nat (nat_of_ascii c + 32) else c.

(** [s.rstrip(c)]: drop the trailing run of [c]. *)
Fixpoint rstrip (c : ascii) (s : string) : string :=
  match s with
  | "" => ""
  | String a rest =>
      match rstrip c rest with
      | "" => if Ascii.eqb a c then "" else String a ""
      | kept => String a kept
      end
  end.

(** [s.split(c)]: the pieces between the occurrences of [c]; never empty. *)
Fixpoint split (c : ascii) (s : string) : list string :=
  match s with
  | "" => [""]
  | String a rest =>
      if Ascii.eqb a c then "" :: split c rest
      else match split c rest with
           | piece :: pieces => String a piece :: pieces
           | [] => [String a ""]
           end
  end.

(** [pieces[-1]] on the non-empty list [split] returns. *)
Definition last_piece (pieces : list string) : string := List.last pieces "".

Fixpoint lstrip_space (s : string) : string :=
  match s with
  | String a rest => if is_space a then lstrip_space rest else s
  | "" => ""
  end.

Fixpoint all_space (s : string) : bool :=
  match s with
  | "" => true
  | String a rest => is_space a && all_space rest
  end.

(** The optional sign of [int]: whether it is a minus, and what follows. *)
Definition split_sign (s : string) : bool * string :=
  match s with
  | String "+" rest => (false, rest)
  | String "-" rest => (true, rest)
  | _ => (false, s)
  end.

(** The digit scan of [int]: decimal digits, a single underscore allowed
    between two digits.  [need_digit] holds at the start and after an
    underscore.  Returns the number read, how many digits it had and what
    follows it. *)
Fixpoint scan_digits (acc : Z) (ndigits : nat) (need_digit : bool) (s : string)
    : option (Z * nat * string) :=
  match s with
  | "" => if need_digit then None else Some (acc, ndigits, "")
  | String a rest =>
      if is_digit a then scan_digits (10 * acc + digit_value a) (S ndigits) false rest
      else if Ascii.eqb a "_" then
        if need_digit then None else scan_digits acc ndigits true rest
      else if need_digit then None else Some (acc, ndigits, s)
  end.

(** ** The interpreter and the validation library

    Two things the source relies on are not fixed by it: the interpreter's
    limit on the digits [int] accepts ([sys.get_int_max_str_digits()],
    [0] for no limit, otherwise at least 640), and how pydantic coerces a
    value that is not of the declared field type.  Both are left open; what
    is fixed is that a [str] is accepted for a [str] field and an [int] for
    an [int] field, unchanged.  [py_str] is [str(v)], which an f-string
    applies to the value it interpolates; only its value on an [int] is
    fixed here. *)
Class Runtime := {
  int_max_str_digits : nat;
  validate_str : value → option string;
  validate_int : value → option Z;
  py_str : value → string;
  int_max_str_digits_range :
    int_max_str_digits = 0%nat ∨ (640 ≤ int_max_str_digits)%nat;
  validate_str_str : ∀ s, validate_str (VStr s) = Some s;
  validate_int_int : ∀ n, validate_int (VInt n) = Some n;
  py_str_int : ∀ n, py_str (VInt n) = NilZero.string_of_int (Z.to_int n);
}.

Section WithRuntime.
Context `{Runtime}.

Definition digits_allowed (ndigits : nat) : bool :=
  (int_max_str_digits =? 0)%nat || (ndigits <=? int_max_str_digits)%nat.

(** [int(s)] for a [str], base ten: white space, an optional sign, the
    digits, white space.  [None] stands for [ValueError]. *)
Definition py_int (s : string) : option Z :=
  let '(negative, body) := split_sign (lstrip_space s) in
  '(n, ndigits, rest) ← scan_digits 0 0 true body;
  if digits_allowed ndigits && all_space rest
  then Some (if negative then - n else n)
  else None.

End WithRuntime.

(** [s.title()]: the first letter of every run of letters in upper case,
    the other letters of the run in lower case. *)
Fixpoint title_from (previous_is_cased : bool) (s : string) : string :=
  match s with
  | "" => ""
  | String a rest =>
      if is_lower a then
        String (if previous_is_cased then a else to_upper a) (title_from true rest)
      else if is_upper a then
        String (if previous_is_cased then to_lower a else a) (title_from true rest)
      else String a (title_from false rest)
  end.

Definition title (s : string) : string := title_from false s.

(** [bool(v)]. *)
Definition truthy (v : value) : bool :=
  match v with
  | VNone => false
  | VBool b => b
  | VInt n => negb (n =? 0)
  | VFloat f => negb (PrimFloat.eqb f 0%float)
  | VStr s => negb (String.eqb s "")
  | VList items => match items with [] => false | _ => true end
  | VDict kvs => match kvs with [] => false | _ => true end
  end.

(** [x or y]. *)
Definition py_or (x y : value) : value := if truthy x then x else y.

(** [obj[key]] for a [str] key. *)
Definition py_getitem (obj : value) (key : string) : result value :=
  match obj with
  | VDict kvs =>
      match dict_lookup key kvs with
      | Some v => Ok v
      | None => Raise KeyError
      end
  | _ => Raise TypeError
  end.

(** [for x in obj]: the items it yields. *)
Definition py_iter (obj : value) : result (list value) :=
  match obj with
  | VList items => Ok items
  | VDict kvs => Ok (map (λ kv, VStr (fst kv)) kvs)
  | VStr s => Ok (map (λ a, VStr (String a "")) (list_ascii_of_string s))
  | _ => Raise TypeError
  end.

(** ** schemas.py *)

Module EvolutionStage.
Record t := { id : Z; name : string; sprite : option string }.
End EvolutionStage.

Module Stats.
Record t := {
  hp : Z; attack : Z; defense : Z;
  special_attack : Z; special_defense : Z; speed : Z
}.
End Stats.

Module Pokemon.
Record t := {
  id : Z;
  name : string;
  types : list string;
  height : float;
  weight : float;
  stats : Stats.t;
  sprite : option string;
  spriteHD : option string;
  evolution : list EvolutionStage.t
}.
End Pokemon.

Definition SPRITE_BASE : string :=
  "https://raw.githubusercontent.com/PokeAPI/sprites/master/sprites/pokemon/".

Section Code.
Context `{Runtime}.

(** [EvolutionStage(id=.., name=.., sprite=..)]. *)
Definition new_EvolutionStage (id name sprite : value) : result EvolutionStage.t :=
  match validate_int id, validate_str name, validate_str sprite with
  | Some i, Some n, Some s =>
      Ok {| EvolutionStage.id := i; EvolutionStage.name := n;
            EvolutionStage.sprite := Some s |}
  | _, _, _ => Raise ValidationError
  end.

(** ** build_evolution_chain *)

(** The [try]/[except] of [traverse]: the trailing segment of the URL as an
    [int], and [0] on any exception (no [rstrip] on a value that is not a
    [str], or [int] refusing the segment). *)
Definition poke_id_of (species_url : value) : Z :=
  match species_url with
  | VStr url => default 0 (py_int (last_piece (split "/" (rstrip "/" url))))
  | _ => 0
  end.

(** A [for] loop over [items] whose body may raise. *)
Definition for_each {S} (body : value → S → result S)
    : list value → S → result S :=
  fix loop (items : list value) (s : S) : result S :=
    match items with
    | [] => Ok s
    | item :: rest => s' ← body item s; loop rest s'
    end.

(** The inner [traverse] of [build_evolution_chain].  The list [stages] it
    appends to is threaded through.  Iterating a [dict] or a [str] under
    ["evolves_to"] yields [str] items, and [traverse] raises on the first of
    them ([traverse_not_dict] below), which is written out here.  The
    recursion is as deep as the graph: this is [traverse] without the
    interpreter's recursion limit, which [traverse_bounded] below has. *)
Fixpoint traverse (node : value) (stages : list EvolutionStage.t) {struct node}
    : result (list EvolutionStage.t) :=
  species ← py_get node "species" (VDict []);
  name ← py_get species "name" VNone;
  if negb (truthy name) then Ok stages else
  species ← py_get node "species" (VDict []);
  species_url ← py_get species "url" (VStr "");
  let poke_id := poke_id_of species_url in
  stage ← new_EvolutionStage (VInt poke_id) name
             (VStr (SPRITE_BASE +:+ py_str (VInt poke_id) +:+ ".png"));
  let stages := stages ++ [stage] in
  match node with
  | VDict kvs =>
      with_key "evolves_to" kvs
        (λ children,
           match children with
           | VList items => for_each traverse items stages
           | VDict [] | VStr "" => Ok stages
           | VDict (_ :: _) | VStr (String _ _) => Raise AttributeError
           | _ => Raise TypeError
           end)
        (Ok stages)
  | _ => Raise AttributeError
  end.

(** The [for child in node.get("evolves_to", [])] loop of [traverse], on
    what the lookup of ["evolves_to"] gave. *)
Definition visit_children (children : option value) (stages : list EvolutionStage.t)
    : result (list EvolutionStage.t) :=
  match children with
  | None => Ok stages
  | Some (VList items) => for_each traverse items stages
  | Some (VDict []) | Some (VStr "") => Ok stages
  | Some (VDict (_ :: _)) | Some (VStr (String _ _)) => Raise AttributeError
  | Some _ => Raise TypeError
  end.

(** The stage [traverse] appends for a node whose species is [species] and
    whose name validated to [name]. *)
Definition stage_of (species : list (string * value)) (name : string) : EvolutionStage.t :=
  let poke_id := poke_id_of (default (VStr "") (dict_lookup "url" species)) in
  {| EvolutionStage.id := poke_id;
     EvolutionStage.name := name;
     EvolutionStage.sprite := Some (SPRITE_BASE +:+ py_str (VInt poke_id) +:+ ".png") |}.

(** The loop that removes duplicates: [seen] and [deduped] after [s]. *)
Definition dedup_step (acc : gset Z * list EvolutionStage.t) (s : EvolutionStage.t)
    : gset Z * list EvolutionStage.t :=
  let '(seen, deduped) := acc in
  if bool_decide (EvolutionStage.id s ∉ seen) && negb (EvolutionStage.id s =? 0)
  then ({[EvolutionStage.id s]} ∪ seen, deduped ++ [s])
  else (seen, deduped).

Definition build_evolution_chain (chain_node : value) : result (list EvolutionStage.t) :=
  stages ← traverse chain_node [];
  Ok (snd (foldl dedup_step (∅, []) stages)).

(** [traverse] under the interpreter's recursion limit: [budget] is the
    number of nested calls of [traverse] the interpreter still allows, and a
    call beyond it raises [RecursionError]. *)
Fixpoint traverse_bounded (budget : nat) (node : value) (stages : list EvolutionStage.t)
    : result (list EvolutionStage.t) :=
  match budget with
  | O => Raise RecursionError
  | S budget =>
      species ← py_get node "species" (VDict []);
      name ← py_get species "name" VNone;
      if negb (truthy name) then Ok stages else
      species ← py_get node "species" (VDict []);
      species_url ← py_get species "url" (VStr "");
      let poke_id := poke_id_of species_url in
      stage ← new_EvolutionStage (VInt poke_id) name
                 (VStr (SPRITE_BASE +:+ py_str (VInt poke_id) +:+ ".png"));
      let stages := stages ++ [stage] in
      children ← py_get node "evolves_to" (VList []);
      items ← py_iter children;
      for_each (traverse_bounded budget) items stages
  end.

Definition build_evolution_chain_bounded (budget : nat) (chain_node : value)
    : result (list EvolutionStage.t) :=
  stages ← traverse_bounded budget chain_node [];
  Ok (snd (foldl dedup_step (∅, []) stages)).

(** ** The upstream source

    What [requests.get] does is the world's choice: it raises (no response
    arrived), or it returns a response with a status code and a body that
    [r.json()] decodes or rejects.  A request is identified by the value
    interpolated into its URL ([fetch_species]) or passed as its URL
    ([fetch_evolution_chain]). *)
Inductive request : Type :=
| SpeciesRequest (poke_id : value)
| UrlRequest (url : value).

Inductive response : Type :=
| NoResponse
| Response (status_code : Z) (json : option value).

Definition upstream : Type := request → response.

Definition fetch_secondary (w : upstream) (req : request) : result value :=
  match w req with
  | NoResponse => Raise ConnectionError
  | Response status_code json =>
      if negb (status_code =? 200) then Ok VNone
      else match json with
           | Some body => Ok body
           | None => Raise JSONDecodeError
           end
  end.

Definition fetch_species (w : upstream) (poke_id : value) : result value :=
  fetch_secondary w (SpeciesRequest poke_id).

Definition fetch_evolution_chain (w : upstream) (url : value) : result value :=
  fetch_secondary w (UrlRequest url).

(** ** normalize_pokemon *)

Fixpoint map_m {A B} (f : A → result B) (l : list A) : result (list B) :=
  match l with
  | [] => Ok []
  | a :: rest => b ← f a; bs ← map_m f rest; Ok (b :: bs)
  end.

(** A [dict] under construction, as the sequence of its insertions; a key
    must be hashable.  [log_get] is [d.get(key, dflt)] for a [str] key: the
    latest insertion under an equal key, and only a [str] equals a [str]. *)
Definition hashable (v : value) : bool :=
  match v with
  | VList _ | VDict _ => false
  | _ => true
  end.

Definition key_is (key : string) (k : value) : bool :=
  match k with
  | VStr s => String.eqb s key
  | _ => false
  end.

Definition log_get (log : list (value * value)) (key : string) (dflt : value) : value :=
  foldl (λ found kv, if key_is key (fst kv) then snd kv else found) dflt log.

(** One item of [{s["stat"]["name"]: s["base_stat"] for s in ...}]. *)
Definition stat_entry (s : value) : result (value * value) :=
  stat ← py_getitem s "stat";
  name ← py_getitem stat "name";
  base_stat ← py_getitem s "base_stat";
  if hashable name then Ok (name, base_stat) else Raise TypeError.

(** [Stats(hp=.., ..)]. *)
Definition new_Stats (hp attack defense special_attack special_defense speed : value)
    : result Stats.t :=
  match validate_int hp, validate_int attack, validate_int defense,
        validate_int special_attack, validate_int special_defense,
        validate_int speed with
  | Some a, Some b, Some c, Some d, Some e, Some f =>
      Ok {| Stats.hp := a; Stats.attack := b; Stats.defense := c;
            Stats.special_attack := d; Stats.special_defense := e;
            Stats.speed := f |}
  | _, _, _, _, _, _ => Raise ValidationError
  end.

(** Lines 103 to 111: [stats_map] and the [Stats] built from it. *)
Definition build_stats (raw : value) : result Stats.t :=
  source ← py_get raw "stats" (VList []);
  items ← py_iter source;
  stats_map ← map_m stat_entry items;
  new_Stats (log_get stats_map "hp" (VInt 0))
            (log_get stats_map "attack" (VInt 0))
            (log_get stats_map "defense" (VInt 0))
            (log_get stats_map "special-attack" (VInt 0))
            (log_get stats_map "special-defense" (VInt 0))
            (log_get stats_map "speed" (VInt 0)).

(** [float(n)] for an [int]: the nearest double, ties to even, and
    [OverflowError] when that is beyond the largest double. *)
Definition nearest_float (n : Z) : float :=
  SF2Prim (binary_normalize prec emax n 0 false).

Definition float_of_int (n : Z) : result float :=
  let f := nearest_float n in
  if PrimFloat.is_infinity f then Raise OverflowError else Ok f.

(** [v / d] for a [float] divisor; [bool] is a subclass of [int]. *)
Definition py_truediv (v : value) (d : float) : result float :=
  x ← match v with
      | VInt n => float_of_int n
      | VBool b => float_of_int (if b then 1 else 0)
      | VFloat f => Ok f
      | _ => Raise TypeError
      end;
  if PrimFloat.eqb d 0%float then Raise ZeroDivisionError
  else Ok (PrimFloat.div x d).

(** [v.title()]; only a [str] has the method. *)
Definition py_title (v : value) : result string :=
  match v with
  | VStr s => Ok (title s)
  | _ => Raise AttributeError
  end.

(** [Pokemon(id=.., ..)].  The arguments that are a [float], a [Stats] or
    a list of [EvolutionStage] already are passed as such. *)
Definition new_Pokemon (id name : value) (types : list value) (height weight : float)
    (stats : Stats.t) (sprite spriteHD : value) (evolution : list EvolutionStage.t)
    : result Pokemon.t :=
  match validate_int id, validate_str name, mapM validate_str types,
        validate_str sprite, validate_str spriteHD with
  | Some i, Some n, Some ts, Some s, Some hd =>
      Ok {| Pokemon.id := i; Pokemon.name := n; Pokemon.types := ts;
            Pokemon.height := height; Pokemon.weight := weight;
            Pokemon.stats := stats; Pokemon.sprite := Some s;
            Pokemon.spriteHD := Some hd; Pokemon.evolution := evolution |}
  | _, _, _, _, _ => Raise ValidationError
  end.

(** Lines 113 and 114: the URL of the evolution chain in what
    [fetch_species] returned. *)
Definition chain_url_of (fetched : value) : result value :=
  let species := py_or fetched (VDict []) in
  evolution_chain ← py_get species "evolution_chain" VNone;
  py_get (py_or evolution_chain (VDict [])) "url" VNone.

(** Lines 113 to 119: the two secondary lookups and the [evolution] list
    they lead to. *)
Definition lookup_evolution (w : upstream) (pid : value)
    : result (list EvolutionStage.t) :=
  fetched ← fetch_species w pid;
  evo_chain_url ← chain_url_of fetched;
  if truthy evo_chain_url then
    evo ← fetch_evolution_chain w evo_chain_url;
    if truthy evo then
      chain ← py_get evo "chain" (VDict []);
      build_evolution_chain chain
    else Ok []
  else Ok [].

Definition normalize_pokemon (w : upstream) (raw : value) : result Pokemon.t :=
  source ← py_get raw "types" (VList []);
  items ← py_iter source;
  types ← map_m (λ t, ty ← py_getitem t "type"; py_getitem ty "name") items;
  stats ← build_stats raw;
  pid ← py_get raw "id" VNone;
  evolution ← lookup_evolution w pid;
  slug ← py_get raw "name" (VStr "");
  name ← py_title slug;
  h ← py_get raw "height" (VInt 0);
  height ← py_truediv h 10%float;
  wt ← py_get raw "weight" (VInt 0);
  weight ← py_truediv wt 10%float;
  new_Pokemon pid (VStr name) types height weight stats
    (VStr (SPRITE_BASE +:+ py_str pid +:+ ".png"))
    (VStr (SPRITE_BASE +:+ "other/official-artwork/" +:+ py_str pid +:+ ".png"))
    evolution.

End Code.

(** ** Shapes of the input *)

Definition ids (stages : list EvolutionStage.t) : list Z :=
  map EvolutionStage.id stages.

(** [node.get("species", {})] on a [dict] node, and the name in it. *)
Definition species_of (kvs : list (string * value)) : value :=
  default (VDict []) (dict_lookup "species" kvs).

Definition name_of (species : list (string * value)) : value :=
  default VNone (dict_lookup "name" species).

(** A node without a resolvable species name: an object whose species, if
    it has one, is an object whose name is absent or falsy. *)
Definition nameless (node : value) : bool :=
  match node with
  | VDict kvs =>
      match species_of kvs with
      | VDict species => negb (truthy (name_of species))
      | _ => false
      end
  | _ => false
  end.

(** A graph every visited node of which has the expected shape: an object
    whose species, if present, is an object; a name that is truthy is a
    [str]; the children, if present, are a list of such nodes.  Below a
    node without a name nothing is required. *)
Fixpoint well_formed (node : value) : bool :=
  match node with
  | VDict kvs =>
      match species_of kvs with
      | VDict species =>
          if negb (truthy (name_of species)) then true
          else match name_of species with
               | VStr _ =>
                   with_key "evolves_to" kvs
                     (λ children,
                        match children with
                        | VList items => forallb well_formed items
                        | _ => false
                        end)
                     true
               | _ => false
               end
      | _ => false
      end
  | _ => false
  end.

(** How many calls of [traverse] are nested on [node], at most: one for
    the node, and those of the deepest child under ["evolves_to"]. *)
Fixpoint depth (node : value) : nat :=
  match node with
  | VDict kvs =>
      S (with_key "evolves_to" kvs
           (λ children,
              match children with
              | VList items => foldr (λ child deepest, Nat.max (depth child) deepest) O items
              | _ => O
              end)
           O)
  | _ => 1%nat
  end.

(** A string of ASCII characters: no character above 127.  On such
    strings [py_int], [title], [py_lower] and [py_take] below are [int],
    [str.title], [str.lower] and slicing. *)
Fixpoint ascii_only (s : string) : bool :=
  match s with
  | "" => true
  | String a rest => (nat_of_ascii a <? 128)%nat && ascii_only rest
  end.

(** [s] stands in [stages] at the first position that carries its id. *)
Definition first_seen (stages : list EvolutionStage.t) (s : EvolutionStage.t) : Prop :=
  ∃ before after,
    stages = before ++ s :: after ∧ EvolutionStage.id s ∉ ids before.

(** What the loop that removes duplicates maintains, [visited] being the
    stages it has gone through. *)
Definition dedup_invariant (visited : list EvolutionStage.t)
    (acc : gset Z * list EvolutionStage.t) : Prop :=
  let seen := fst acc in
  let deduped := snd acc in
  (∀ x, x ∈ seen ↔ x ∈ ids deduped) ∧
  NoDup (ids deduped) ∧
  (0 ∉ ids deduped) ∧
  deduped `sublist_of` visited ∧
  (∀ s, s ∈ visited → EvolutionStage.id s ≠ 0 → EvolutionStage.id s ∈ ids deduped) ∧
  (∀ s, s ∈ deduped → first_seen visited s).

(** Strings made of the character [c] only, and strings without it. *)
Fixpoint all_char (c : ascii) (s : string) : bool :=
  match s with
  | "" => true
  | String a rest => Ascii.eqb a c && all_char c rest
  end.

Fixpoint no_char (c : ascii) (s : string) : bool :=
  match s with
  | "" => true
  | String a rest => negb (Ascii.eqb a c) && no_char c rest
  end.

(** [segment] is the last non-empty piece of [url] between slashes: it is
    not empty and has no slash, only slashes follow it, and it starts the
    string or follows a slash. *)
Definition last_nonempty_segment (url segment : string) : Prop :=
  ∃ before slashes,
    url = before +:+ segment +:+ slashes ∧
    segment ≠ "" ∧ no_char "/" segment = true ∧ all_char "/" slashes = true ∧
    (before = "" ∨ ∃ p, before = p +:+ "/").

(** The names [normalize_pokemon] looks up in [stats_map], and the field
    of [Stats] each of them fills. *)
Definition recognised : list string :=
  ["hp"; "attack"; "defense"; "special-attack"; "special-defense"; "speed"].

Definition field_of (st : Stats.t) (key : string) : option Z :=
  if String.eqb key "hp" then Some (Stats.hp st)
  else if String.eqb key "attack" then Some (Stats.attack st)
  else if String.eqb key "defense" then Some (Stats.defense st)
  else if String.eqb key "special-attack" then Some (Stats.special_attack st)
  else if String.eqb key "special-defense" then Some (Stats.special_defense st)
  else if String.eqb key "speed" then Some (Stats.speed st)
  else None.

(** The items of [raw.get("stats", [])]. *)
Definition stats_items (raw : value) : result (list value) :=
  source ← py_get raw "stats" (VList []); py_iter source.

(** An item of the shape [{stat: {name}, base_stat}] whose name is none of
    the recognised ones. *)
Definition unrecognised_item (item : value) : Prop :=
  ∃ name base_stat,
    stat_entry item = Ok (name, base_stat) ∧
    ∀ key, key ∈ recognised → key_is key name = false.

(** Title-casing in the words of the specification: the first letter of
    each word between white space is put in upper case, the rest of the
    word is left as it is. *)
Fixpoint capitalize_words_from (at_word_start : bool) (s : string) : string :=
  match s with
  | "" => ""
  | String a rest =>
      if is_space a then String a (capitalize_words_from true rest)
      else String (if at_word_start then to_upper a else a)
                  (capitalize_words_from false rest)
  end.

Definition capitalize_words (s : string) : string := capitalize_words_from true s.

Definition is_letter (a : ascii) : bool := is_lower a || is_upper a.

(** The character at [i] starts a run of letters of [s]. *)
Definition starts_word (s : string) (i : nat) : bool :=
  match i with
  | O => true
  | S j => match String.get j s with
           | Some b => negb (is_letter b)
           | None => true
           end
  end.

(** What [title] makes of the character [a] at the position [i] of [s]. *)
Definition title_char (s : string) (i : nat) (a : ascii) : ascii :=
  if is_letter a then (if starts_word s i then to_upper a else to_lower a) else a.

(** A secondary lookup that is answered with a status other than 200: the
    species lookup, or the evolution-chain lookup for the URL the species
    carries. *)
Definition not_found (w : upstream) (pid : value) : Prop :=
  (∃ status_code json,
     w (SpeciesRequest pid) = Response status_code json ∧ status_code ≠ 200) ∨
  (∃ species url status_code json,
     w (SpeciesRequest pid) = Response 200 (Some species) ∧
     chain_url_of species = Ok url ∧ truthy url = true ∧
     w (UrlRequest url) = Response status_code json ∧ status_code ≠ 200).

Definition set_evolution (evolution : list EvolutionStage.t) (p : Pokemon.t) : Pokemon.t :=
  {| Pokemon.id := Pokemon.id p; Pokemon.name := Pokemon.name p;
     Pokemon.types := Pokemon.types p; Pokemon.height := Pokemon.height p;
     Pokemon.weight := Pokemon.weight p; Pokemon.stats := Pokemon.stats p;
     Pokemon.sprite := Pokemon.sprite p; Pokemon.spriteHD := Pokemon.spriteHD p;
     Pokemon.evolution := evolution |}.

(** A runtime to compute with: CPython's default digit limit, and a
    validator that accepts a value of the declared type only.  It rejects
    every record whose id is not an [int], so the text it gives for a
    [float] or a container is never part of a result. *)
#[global, refine] Instance strict_runtime : Runtime := {|
  int_max_str_digits := 4300;
  validate_str v := match v with VStr s => Some s | _ => None end;
  validate_int v := match v with VInt n => Some n | _ => None end;
  py_str v :=
    match v with
    | VInt n => NilZero.string_of_int (Z.to_int n)
    | VStr s => s
    | VNone => "None"
    | VBool b => if b then "True" else "False"
    | _ => "<object>"
    end;
|}.
Proof. - right. lia. - done. - done. - done. Defined.

(** ** Sample graphs *)

Definition species_ref (name : string) (id : string) : value :=
  VDict [("name", VStr name);
         ("url", VStr ("https://pokeapi.co/api/v2/pokemon-species/" +:+ id +:+ "/"))].

Definition chain_link (name id : string) (evolves_to : list value) : value :=
  VDict [("is_baby", VBool false);
         ("species", species_ref name id);
         ("evolves_to", VList evolves_to)].

(** Root 1 with children 2 and 3, where 2 has the child 4. *)
Definition branching_chain : value :=
  chain_link "one" "1"
    [chain_link "two" "2" [chain_link "four" "4" []];
     chain_link "three" "3" []].

(** ** Sample records *)

Definition stat_item (name : string) (base_stat : Z) : value :=
  VDict [("base_stat", VInt base_stat); ("effort", VInt 0);
         ("stat", VDict [("name", VStr name); ("url", VStr "")])].

Definition type_item (name : string) : value :=
  VDict [("slot", VInt 1); ("type", VDict [("name", VStr name); ("url", VStr "")])].

(** Pikachu, with a height of 7 decimetres and no speed entry. *)
Definition pikachu_fields : list (string * value) :=
  [("id", VInt 25); ("name", VStr "pikachu");
   ("height", VInt 7); ("weight", VInt 60);
   ("types", VList [type_item "electric"]);
   ("stats", VList [stat_item "hp" 35; stat_item "attack" 55;
                    stat_item "defense" 40; stat_item "special-attack" 50;
                    stat_item "special-defense" 50])].

Definition pikachu : value := VDict pikachu_fields.

Definition pichu_chain : value :=
  chain_link "pichu" "172" [chain_link "pikachu" "25" [chain_link "raichu" "26" []]].

(** An upstream that knows the species 25 and its evolution chain 10. *)
Definition pokeapi : upstream := λ req,
  match req with
  | SpeciesRequest (VInt 25) =>
      Response 200 (Some (VDict [("evolution_chain",
        VDict [("url", VStr "https://pokeapi.co/api/v2/evolution-chain/10/")])]))
  | UrlRequest (VStr "https://pokeapi.co/api/v2/evolution-chain/10/") =>
      Response 200 (Some (VDict [("id", VInt 10); ("chain", pichu_chain)]))
  | _ => Response 404 None
  end.

(** Mr. Mime, whose slug has a hyphen. *)
Definition mr_mime_fields : list (string * value) :=
  [("id", VInt 122); ("name", VStr "mr-mime");
   ("height", VInt 13); ("weight", VInt 545);
   ("types", VList [type_item "psychic"; type_item "fairy"]);
   ("stats", VList [stat_item "hp" 40; stat_item "speed" 90])].

Definition mr_mime : value := VDict mr_mime_fields.

(** An upstream that cannot be reached, and one that serves the species
    but not the evolution chain. *)
Definition unreachable : upstream := λ _, NoResponse.

Definition chain_unreachable : upstream := λ req,
  match req with
  | SpeciesRequest _ => pokeapi req
  | UrlRequest _ => NoResponse
  end.

(** An upstream that answers every request with 404. *)
Definition nothing_found : upstream := λ _, Response 404 None.

(** The stage of a [chain_link] whose URL ends in the number [n]. *)
Definition link_stage (name : string) (n : Z) : EvolutionStage.t :=
  {| EvolutionStage.id := n;
     EvolutionStage.name := name;
     EvolutionStage.sprite :=
       Some (SPRITE_BASE +:+ NilZero.string_of_int (Z.to_int n) +:+ ".png") |}.

(** What [pikachu] normalises to with the upstream [pokeapi]. *)
#[warnings="-inexact-float"]
Definition pikachu_normalized : Pokemon.t :=
  {| Pokemon.id := 25;
     Pokemon.name := "Pikachu";
     Pokemon.types := ["electric"];
     Pokemon.height := 0.7%float;
     Pokemon.weight := 6%float;
     Pokemon.stats :=
       {| Stats.hp := 35; Stats.attack := 55; Stats.defense := 40;
          Stats.special_attack := 50; Stats.special_defense := 50;
          Stats.speed := 0 |};
     Pokemon.sprite := Some (SPRITE_BASE +:+ "25.png");
     Pokemon.spriteHD := Some (SPRITE_BASE +:+ "other/official-artwork/25.png");
     Pokemon.evolution :=
       [link_stage "pichu" 172; link_stage "pikachu" 25; link_stage "raichu" 26] |}.

(** What [mr_mime] normalises to; [pokeapi] does not know its species. *)
#[warnings="-inexact-float"]
Definition mr_mime_normalized : Pokemon.t :=
  {| Pokemon.id := 122;
     Pokemon.name := "Mr-Mime";
     Pokemon.types := ["psychic"; "fairy"];
     Pokemon.height := 1.3%float;
     Pokemon.weight := 54.5%float;
     Pokemon.stats :=
       {| Stats.hp := 40; Stats.attack := 0; Stats.defense := 0;
          Stats.special_attack := 0; Stats.special_defense := 0;
          Stats.speed := 90 |};
     Pokemon.sprite := Some (SPRITE_BASE +:+ "122.png");
     Pokemon.spriteHD := Some (SPRITE_BASE +:+ "other/official-artwork/122.png");
     Pokemon.evolution := [] |}.

(** A node with no species reference at all above a child that has one. *)
Definition no_species_parent : value :=
  VDict [("evolves_to", VList [chain_link "child" "7" []])].

(** A node without a name above a child that has one. *)
Definition nameless_parent : value :=
  VDict [("species", VDict []);
         ("evolves_to", VList [chain_link "child" "7" []])].

(** A chain that reconverges (4 is reached from 2 and from 3) and has a
    node whose URL carries no number. *)
Definition reconverging_chain : value :=
  chain_link "one" "1"
    [chain_link "two" "2" [chain_link "four" "4" []];
     chain_link "unknown" "x" [];
     chain_link "three" "3" [chain_link "four" "4" []]].

(** ** The endpoints

    The rest of [main.py]: the lookup of the base record and the three
    routes that use [normalize_pokemon], and the diagnostic route.  An
    endpoint returns, raises [HTTPException], or lets another exception
    through. *)

Inductive http_error : Type :=
| HTTPException (status_code : Z) (detail : string)
| Uncaught (e : exn).

Inductive reply (A : Type) : Type :=
| Returns (a : A)
| Fails (e : http_error).
Arguments Returns {A} a.
Arguments Fails {A} e.

#[global] Instance reply_ret : MRet reply := λ A a, Returns a.
#[global] Instance reply_bind : MBind reply := λ A B k m,
  match m with
  | Returns a => k a
  | Fails e => Fails e
  end.

(** A computation that raises no [HTTPException] of its own. *)
Definition lift {A} (r : result A) : reply A :=
  match r with
  | Ok a => Returns a
  | Raise e => Fails (Uncaught e)
  end.

(** The requests of the service: the base record of [fetch_pokemon_basic],
    identified by the value interpolated into its URL, the paged listing of
    [list_pokemon], and the two secondary lookups. *)
Inductive api_request : Type :=
| PokemonRequest (poke_id_or_name : value)
| ListRequest (limit offset : Z)
| SecondaryRequest (req : request).

Definition api : Type := api_request → response.

Definition secondary (w : api) : upstream := λ req, w (SecondaryRequest req).

Definition fetch_pokemon_basic (w : api) (poke_id_or_name : value) : reply value :=
  match w (PokemonRequest poke_id_or_name) with
  | NoResponse => Fails (Uncaught ConnectionError)
  | Response status_code json =>
      if negb (status_code =? 200)
      then Fails (HTTPException 404 "Pokémon not found")
      else match json with
           | Some body => Returns body
           | None => Fails (Uncaught JSONDecodeError)
           end
  end.

(** [s.lower()]. *)
Fixpoint py_lower (s : string) : string :=
  match s with
  | "" => ""
  | String a rest => String (to_lower a) (py_lower rest)
  end.

Fixpoint starts_with (needle s : string) : bool :=
  match needle, s with
  | "", _ => true
  | String a needle', String b s' => Ascii.eqb a b && starts_with needle' s'
  | String _ _, "" => false
  end.

(** [needle in s] for two strings. *)
Fixpoint contains (needle s : string) : bool :=
  starts_with needle s ||
  match s with
  | "" => false
  | String _ rest => contains needle rest
  end.

(** [bool(x)] for an optional string parameter. *)
Definition given (x : option string) : option string :=
  match x with
  | Some s => if String.eqb s "" then None else Some s
  | None => None
  end.

Section Endpoints.
Context `{Runtime}.

Definition get_pokemon (w : api) (poke : string) : reply Pokemon.t :=
  raw ← fetch_pokemon_basic w (VStr (py_lower poke));
  lift (normalize_pokemon (secondary w) raw).

(** The two [continue] tests of the loop of [list_pokemon]. *)
Definition filtered_out (type q : option string) (p : Pokemon.t) : bool :=
  match given type with
  | Some t => negb (bool_decide (t ∈ Pokemon.types p))
  | None => false
  end ||
  match given q with
  | Some s => negb (contains (py_lower s) (py_lower (Pokemon.name p)))
  | None => false
  end.

(** The first two statements of the [try] of [list_pokemon]. *)
Definition fetch_item (w : api) (item : value) : reply Pokemon.t :=
  name ← lift (py_getitem item "name");
  raw ← fetch_pokemon_basic w name;
  lift (normalize_pokemon (secondary w) raw).

(** One turn of the loop of [list_pokemon]: the Pokemon it appends, if
    any.  [except Exception: continue] catches whatever the body raises. *)
Definition list_item (w : api) (type q : option string) (item : value)
    : option Pokemon.t :=
  match fetch_item w item with
  | Returns p => if filtered_out type q p then None else Some p
  | Fails _ => None
  end.

Definition list_pokemon (w : api) (limit offset : Z) (type q : option string)
    : reply (list Pokemon.t) :=
  match w (ListRequest limit offset) with
  | NoResponse => Fails (Uncaught ConnectionError)
  | Response status_code json =>
      if negb (status_code =? 200)
      then Fails (HTTPException 502 "Failed to fetch list from PokeAPI")
      else match json with
           | None => Fails (Uncaught JSONDecodeError)
           | Some body =>
               results ← lift (py_get body "results" (VList []));
               items ← lift (py_iter results);
               Returns (omap (list_item w type q) (items : list value))
           end
  end.

End Endpoints.

Module CacheResponse.
Record t := { status : string; id : Z; name : string }.
End CacheResponse.

(** [create_document] of the [database] module, which is not part of the
    source: whether the write of a document to a collection raises. *)
Definition document_sink : Type := string → Pokemon.t → result unit.

Section Cache.
Context `{Runtime}.

Definition cache_pokemon (w : api) (create_document : document_sink) (poke : string)
    : reply CacheResponse.t :=
  raw ← fetch_pokemon_basic w (VStr (py_lower poke));
  p ← lift (normalize_pokemon (secondary w) raw);
  let response :=
    {| CacheResponse.status := "ok"; CacheResponse.id := Pokemon.id p;
       CacheResponse.name := Pokemon.name p |} in
  match create_document "pokemon" p with
  | Ok _ => Returns response
  | Raise _ => Returns response
  end.

End Cache.

(** [s[:n]]. *)
Fixpoint py_take (n : nat) (s : string) : string :=
  match n, s with
  | S n', String a rest => String a (py_take n' rest)
  | _, _ => ""
  end.

(** The [db] handle of the [database] module as [test_database] uses it:
    [None], or a handle whose [list_collection_names()] returns the names
    or raises an exception with the given [str(e)]. *)
Inductive db_handle : Type :=
| NoDatabase
| Database (list_collection_names : string + list string).

Module StatusReport.
Record t := {
  backend : string;
  database : string;
  database_url : string;
  database_name : string;
  connection_status : string;
  collections : list string
}.
End StatusReport.

(** [os.getenv(name)] is truthy. *)
Definition env_set (getenv : string → option string) (name : string) : bool :=
  match getenv name with
  | Some v => negb (String.eqb v "")
  | None => false
  end.

Definition test_database (getenv : string → option string) (db : db_handle)
    : StatusReport.t :=
  let database_url := if env_set getenv "DATABASE_URL" then "✅ Set" else "❌ Not Set" in
  let database_name := if env_set getenv "DATABASE_NAME" then "✅ Set" else "❌ Not Set" in
  match db with
  | NoDatabase =>
      {| StatusReport.backend := "✅ Running";
         StatusReport.database := "❌ Not Available";
         StatusReport.database_url := database_url;
         StatusReport.database_name := database_name;
         StatusReport.connection_status := "Not Connected";
         StatusReport.collections := [] |}
  | Database (inr names) =>
      {| StatusReport.backend := "✅ Running";
         StatusReport.database := "✅ Available";
         StatusReport.database_url := database_url;
         StatusReport.database_name := database_name;
         StatusReport.connection_status := "Connected";
         StatusReport.collections := names |}
  | Database (inl message) =>
      {| StatusReport.backend := "✅ Running";
         StatusReport.database := "⚠️ Error: " +:+ py_take 80 message;
         StatusReport.database_url := database_url;
         StatusReport.database_name := database_name;
         StatusReport.connection_status := "Connected";
         StatusReport.collections := [] |}
  end.

(** The element [t["type"]["name"]] of the list comprehension of
    [normalize_pokemon]. *)
Definition type_name (t : value) : result value :=
  ty ← py_getitem t "type"; py_getitem ty "name".

(** The values [/] accepts on the left of a [float]. *)
Definition numeric (v : value) : bool :=
  match v with
  | VInt _ | VBool _ | VFloat _ => true
  | _ => false
  end.

Definition is_str (v : value) : bool :=
  match v with
  | VStr _ => true
  | _ => false
  end.

(** An upstream for the endpoints: the listing names pikachu, an unknown
    entry and mr-mime; the base records and the secondary lookups are those
    of [pokeapi]. *)
Definition listing : value :=
  VDict [("count", VInt 3);
         ("results", VList [VDict [("name", VStr "pikachu")];
                            VDict [("name", VStr "missingno")];
                            VDict [("name", VStr "mr-mime")]])].

Definition service : api := λ req,
  match req with
  | PokemonRequest (VStr "pikachu") => Response 200 (Some pikachu)
  | PokemonRequest (VStr "mr-mime") => Response 200 (Some mr_mime)
  | PokemonRequest _ => Response 500 None
  | ListRequest _ _ => Response 200 (Some listing)
  | SecondaryRequest req => pokeapi req
  end.

(** * Properties *)

(** ** Values *)

Lemma value_ind (P : value → Prop) :
  P VNone → (∀ b, P (VBool b)) → (∀ n, P (VInt n)) → (∀ f, P (VFloat f)) →
  (∀ s, P (VStr s)) →
  (∀ items, Forall P items → P (VList items)) →
  (∀ kvs, Forall (λ kv, P kv.2) kvs → P (VDict kvs)) →
  ∀ v, P v.
Proof.
  intros HNone HBool HInt HFloat HStr HList HDict.
  fix self 1. intros [ |b|n|f|s|items|kvs].
  - exact HNone.
  - apply HBool.
  - apply HInt.
  - apply HFloat.
  - apply HStr.
  - apply HList. induction items as [|item items IH]; constructor.
    + apply self.
    + exact IH.
  - apply HDict. induction kvs as [|[k v] kvs IH]; constructor.
    + apply self.
    + exact IH.
Qed.

Lemma with_key_lookup {A} key kvs (found : value → A) missing :
  with_key key kvs found missing
  = match dict_lookup key kvs with Some v => found v | None => missing end.
Proof.
  induction kvs as [|[k v] kvs IH]; simpl; [done|].
  destruct (String.eqb k key); [done|apply IH].
Qed.

Lemma dict_lookup_Forall (P : value → Prop) key kvs v :
  Forall (λ kv, P kv.2) kvs → dict_lookup key kvs = Some v → P v.
Proof.
  induction 1 as [|[k x] kvs Hx _ IH]; simpl; [done|].
  destruct (String.eqb k key); [by intros [= <-]|done].
Qed.

(** ** traverse *)

Section Traverse.
Context `{Runtime}.

Lemma new_EvolutionStage_str poke_id name sprite :
  new_EvolutionStage (VInt poke_id) (VStr name) (VStr sprite)
  = Ok {| EvolutionStage.id := poke_id; EvolutionStage.name := name;
          EvolutionStage.sprite := Some sprite |}.
Proof.
  unfold new_EvolutionStage.
  by rewrite validate_int_int, !validate_str_str.
Qed.

Lemma traverse_not_dict node stages :
  (∀ kvs, node ≠ VDict kvs) → traverse node stages = Raise AttributeError.
Proof. intros Hnode. destruct node; try done. by destruct (Hnode kvs). Qed.

Lemma traverse_dict kvs stages :
  traverse (VDict kvs) stages =
  match species_of kvs with
  | VDict species =>
      if truthy (name_of species) then
        let poke_id := poke_id_of (default (VStr "") (dict_lookup "url" species)) in
        stage ← new_EvolutionStage (VInt poke_id) (name_of species)
                  (VStr (SPRITE_BASE +:+ py_str (VInt poke_id) +:+ ".png"));
        visit_children (dict_lookup "evolves_to" kvs) (stages ++ [stage])
      else Ok stages
  | _ => Raise AttributeError
  end.
Proof.
  unfold species_of, name_of.
  cbn [traverse py_get mbind result_bind].
  destruct (default (VDict []) (dict_lookup "species" kvs)) as [| | | | | |sp]; try done.
  cbn [py_get mbind result_bind].
  destruct (truthy _); cbn [negb]; [|done].
  destruct (new_EvolutionStage _ _ _); cbn [mbind result_bind]; [|done].
  rewrite with_key_lookup. unfold visit_children.
  by destruct (dict_lookup "evolves_to" kvs) as [[]|].
Qed.

(** A node with a name that is a [str]: its stage, then its children. *)
Lemma traverse_named kvs species name stages :
  species_of kvs = VDict species →
  name_of species = VStr name → name ≠ "" →
  traverse (VDict kvs) stages
  = visit_children (dict_lookup "evolves_to" kvs) (stages ++ [stage_of species name]).
Proof.
  intros Hsp Hname Hne. rewrite traverse_dict, Hsp, Hname. cbn [truthy].
  destruct (String.eqb_spec name ""); [done|]. cbn [negb].
  by rewrite new_EvolutionStage_str.
Qed.

Lemma traverse_nameless node stages :
  nameless node = true → traverse node stages = Ok stages.
Proof.
  destruct node as [| | | | | |kvs]; try done. cbn [nameless].
  rewrite traverse_dict. destruct (species_of kvs); try done.
  by intros ->%negb_true_iff.
Qed.

Lemma for_each_cons {S} (body : value → S → result S) item rest s :
  for_each body (item :: rest) s = (s' ← body item s; for_each body rest s').
Proof. done. Qed.

Lemma for_each_app {S} (body : value → S → result S) l1 l2 s :
  for_each body (l1 ++ l2) s = (s' ← for_each body l1 s; for_each body l2 s').
Proof.
  revert s. induction l1 as [|item l1 IH]; intros s; [done|].
  cbn [app]. rewrite !for_each_cons.
  destruct (body item s); cbn [mbind result_bind]; [apply IH|done].
Qed.

End Traverse.

(** ** Strings *)

Lemma append_empty_l s : "" +:+ s = s.
Proof. reflexivity. Qed.

Lemma append_String a s1 s2 : String a s1 +:+ s2 = String a (s1 +:+ s2).
Proof. reflexivity. Qed.

Lemma append_empty_r s : s +:+ "" = s.
Proof. induction s as [|a s IH]; [done|]. by rewrite append_String, IH. Qed.

Lemma append_assoc s1 s2 s3 : (s1 +:+ s2) +:+ s3 = s1 +:+ (s2 +:+ s3).
Proof. induction s1 as [|a s1 IH]; [done|]. by rewrite !append_String, IH. Qed.

Lemma rstrip_all c s : all_char c s = true → rstrip c s = "".
Proof.
  induction s as [|a s IH]; [done|]. cbn.
  intros [Ha Hs]%andb_true_iff. by rewrite (IH Hs), Ha.
Qed.

Lemma rstrip_no_char c s : no_char c s = true → rstrip c s = s.
Proof.
  induction s as [|a s IH]; [done|]. cbn.
  intros [Ha Hs]%andb_true_iff. rewrite (IH Hs).
  apply negb_true_iff in Ha. rewrite Ha. by destruct s.
Qed.

Lemma rstrip_app c s1 s2 :
  rstrip c (s1 +:+ s2)
  = match rstrip c s2 with "" => rstrip c s1 | kept => s1 +:+ kept end.
Proof.
  induction s1 as [|a s1 IH].
  - rewrite append_empty_l. by destruct (rstrip c s2).
  - rewrite append_String. cbn [rstrip]. rewrite IH.
    destruct (rstrip c s2) as [|b kept]; [done|].
    rewrite append_String. by destruct s1.
Qed.

Lemma split_not_nil c s : split c s ≠ [].
Proof.
  destruct s as [|a s]; [done|]. cbn.
  destruct (Ascii.eqb a c); [done|]. by destruct (split c s).
Qed.

Lemma split_no_char c s : no_char c s = true → split c s = [s].
Proof.
  induction s as [|a s IH]; [done|]. cbn.
  intros [Ha Hs]%andb_true_iff. apply negb_true_iff in Ha.
  by rewrite Ha, (IH Hs).
Qed.

Lemma split_app_sep c s1 s2 :
  split c (s1 +:+ String c s2) = split c s1 ++ split c s2.
Proof.
  induction s1 as [|a s1 IH].
  - rewrite append_empty_l. cbn [split app]. by rewrite Ascii.eqb_refl.
  - rewrite append_String. cbn [split]. rewrite IH.
    destruct (Ascii.eqb a c); [done|].
    pose proof (split_not_nil c s1). by destruct (split c s1).
Qed.

Lemma last_piece_app_singleton pieces s : last_piece (pieces ++ [s]) = s.
Proof. unfold last_piece. apply last_last. Qed.

(** The piece the code parses is the last non-empty piece of the URL. *)
Lemma trailing_piece_is_last_segment url segment :
  last_nonempty_segment url segment →
  last_piece (split "/" (rstrip "/" url)) = segment.
Proof.
  intros (before & slashes & -> & Hne & Hseg & Hsl & Hbefore).
  assert (rstrip "/" (segment +:+ slashes) = segment) as Hkeep.
  { rewrite rstrip_app, (rstrip_all _ _ Hsl), (rstrip_no_char _ _ Hseg). done. }
  rewrite rstrip_app, Hkeep.
  destruct segment as [|a segment]; [done|].
  destruct Hbefore as [->|[p ->]].
  - by rewrite append_empty_l, (split_no_char _ _ Hseg).
  - rewrite append_assoc, append_String, append_empty_l.
    rewrite split_app_sep, (split_no_char _ _ Hseg).
    apply last_piece_app_singleton.
Qed.

Lemma trailing_piece_all_slashes url :
  all_char "/" url = true → last_piece (split "/" (rstrip "/" url)) = "".
Proof. intros Hsl. by rewrite (rstrip_all _ _ Hsl). Qed.

(** Every string has a last non-empty piece or is made of slashes. *)
Lemma last_segment_or_slashes url :
  all_char "/" url = true ∨ ∃ segment, last_nonempty_segment url segment.
Proof.
  induction url as [|a url [Hsl|(segment & before & slashes & -> & Hne & Hseg & Hsl & Hb)]].
  - by left.
  - destruct (Ascii.eqb a "/") eqn:Ha.
    + left. cbn. by rewrite Ha.
    + right. exists (String a ""), "", url. cbn [no_char]. rewrite Ha. naive_solver.
  - right. destruct Hb as [->|[p ->]].
    + destruct (Ascii.eqb_spec a "/") as [->|Ha].
      * exists segment, "/", slashes. split_and!; try done. right. by exists "".
      * exists (String a segment), "", slashes. cbn [no_char].
        apply Ascii.eqb_neq in Ha. rewrite Ha. naive_solver.
    + exists segment, (String a p +:+ "/"), slashes. split_and!; try done.
      right. by exists (String a p).
Qed.

(** ** int *)

Lemma scan_digits_count acc ndigits need_digit s n ndigits' rest :
  scan_digits acc ndigits need_digit s = Some (n, ndigits', rest) →
  (ndigits' ≤ ndigits + String.length s)%nat.
Proof.
  revert acc ndigits need_digit.
  induction s as [|a s IH]; intros acc ndigits need_digit; cbn [scan_digits String.length].
  - destruct need_digit; [done|]. intros [= _ <- _]. lia.
  - destruct (is_digit a).
    { intros Hs%IH. lia. }
    destruct (Ascii.eqb a "_").
    { destruct need_digit; [done|]. intros Hs%IH. lia. }
    destruct need_digit; [done|]. intros [= _ <- _]. lia.
Qed.

Lemma lstrip_space_length s : (String.length (lstrip_space s) ≤ String.length s)%nat.
Proof.
  induction s as [|a s IH]; [done|]. cbn [lstrip_space].
  destruct (is_space a); cbn [String.length] in *; lia.
Qed.

Lemma split_sign_length s : (String.length (split_sign s).2 ≤ String.length s)%nat.
Proof.
  destruct s as [|a rest]; [cbn; lia|].
  destruct a as [[] [] [] [] [] [] [] []]; cbn [split_sign snd String.length]; lia.
Qed.

Section Int.
Context `{Runtime}.

Lemma digits_allowed_small n : (n ≤ 640)%nat → digits_allowed n = true.
Proof.
  intros Hn. unfold digits_allowed.
  destruct int_max_str_digits_range as [->|Hmax]; [done|].
  apply orb_true_iff. right. apply Nat.leb_le. lia.
Qed.

(** On a short string [int] does not depend on the digit limit. *)
Lemma py_int_short s :
  (String.length s ≤ 640)%nat → py_int s = py_int (H:=strict_runtime) s.
Proof.
  intros Hlen. unfold py_int.
  pose proof (lstrip_space_length s) as Hstrip.
  pose proof (split_sign_length (lstrip_space s)) as Hbody.
  destruct (split_sign (lstrip_space s)) as [negative body]. cbn [snd] in Hbody.
  destruct (scan_digits 0 0 true body) as [[[n ndigits] rest]|] eqn:Hscan; [|done].
  apply scan_digits_count in Hscan. cbn [mbind option_bind].
  rewrite digits_allowed_small by lia.
  assert (digits_allowed (H:=strict_runtime) ndigits = true) as ->; [|done].
  apply Nat.leb_le. cbn. lia.
Qed.

End Int.

(** ** Induction over the nodes of a graph

    To prove [P] of a value, [P] may be assumed of the members of every list
    bound in it, the children under ["evolves_to"] among them. *)
Lemma nodes_ind (P : value → Prop) :
  (∀ v,
     (∀ kvs key items,
        v = VDict kvs → dict_lookup key kvs = Some (VList items) → Forall P items) →
     P v) →
  ∀ v, P v.
Proof.
  intros Hstep.
  enough (∀ v, P v ∧ ∀ items, v = VList items → Forall P items) as HQ
    by (intros v; apply HQ).
  induction v as [ | | | | |items IH|kvs IH] using value_ind;
    try (split; [by apply Hstep|done]).
  - split; [by apply Hstep|]. intros ? [= <-].
    eapply Forall_impl; [exact IH|]. by intros v [Hv _].
  - split; [|done]. apply Hstep. intros ? key items [= <-] Hkey.
    pose proof (dict_lookup_Forall
      (λ v, P v ∧ ∀ items, v = VList items → Forall P items) _ _ _ IH Hkey)
      as [_ Hitems].
    by apply Hitems.
Qed.

Section Graphs.
Context `{Runtime}.

Lemma for_each_nil {S} (body : value → S → result S) s : for_each body [] s = Ok s.
Proof. done. Qed.

Lemma well_formed_dict kvs :
  well_formed (VDict kvs) =
  match species_of kvs with
  | VDict species =>
      if negb (truthy (name_of species)) then true
      else match name_of species with
           | VStr _ =>
               match dict_lookup "evolves_to" kvs with
               | Some (VList items) => forallb well_formed items
               | Some _ => false
               | None => true
               end
           | _ => false
           end
  | _ => false
  end.
Proof.
  cbn [well_formed]. destruct (species_of kvs); try done.
  destruct (negb _); [done|]. destruct (name_of _); try done.
  by rewrite with_key_lookup.
Qed.

Lemma for_each_total items :
  Forall (λ node, well_formed node = true →
                  ∀ stages, ∃ out, traverse node stages = Ok out) items →
  forallb well_formed items = true →
  ∀ stages, ∃ out, for_each traverse items stages = Ok out.
Proof.
  induction 1 as [|item items Hitem _ IH]; intros Hwf stages.
  - by exists stages.
  - cbn [forallb] in Hwf. apply andb_true_iff in Hwf as [Hw Hws].
    destruct (Hitem Hw stages) as [stages' Hs].
    rewrite for_each_cons, Hs. cbn [mbind result_bind]. by apply IH.
Qed.

(** On a well-formed graph [traverse], which has no recursion limit,
    returns. *)
Lemma traverse_total node :
  well_formed node = true → ∀ stages, ∃ out, traverse node stages = Ok out.
Proof.
  induction node as [node IH] using nodes_ind.
  destruct node as [| | | | | |kvs]; try done.
  rewrite well_formed_dict. intros Hwf stages. rewrite traverse_dict.
  destruct (species_of kvs) as [| | | | | |species]; try done.
  destruct (truthy (name_of species)); cbn [negb] in *; [|by eexists].
  destruct (name_of species) as [| | | |name| |]; try done.
  cbn zeta. rewrite new_EvolutionStage_str. cbn [mbind result_bind].
  destruct (dict_lookup "evolves_to" kvs) as [children|] eqn:Hchildren;
    [|by eexists].
  destruct children as [| | | | |items|]; try done. cbn [visit_children].
  apply for_each_total; [|done]. by eapply IH.
Qed.

Lemma for_each_appends items :
  Forall (λ node, ∀ stages, traverse node stages
                            = (emitted ← traverse node []; Ok (stages ++ emitted))) items →
  ∀ stages, for_each traverse items stages
            = (emitted ← for_each traverse items []; Ok (stages ++ emitted)).
Proof.
  induction 1 as [|item items Hitem _ IH]; intros stages.
  - cbn. by rewrite app_nil_r.
  - rewrite !for_each_cons, Hitem.
    destruct (traverse item []) as [first|]; cbn [mbind result_bind]; [|done].
    rewrite IH, (IH first).
    destruct (for_each traverse items []) as [others|]; cbn [mbind result_bind]; [|done].
    by rewrite app_assoc.
Qed.

(** [traverse] only appends: what it appends does not depend on the
    stages collected before. *)
Lemma traverse_appends node stages :
  traverse node stages = (emitted ← traverse node []; Ok (stages ++ emitted)).
Proof.
  revert stages. induction node as [node IH] using nodes_ind. intros stages.
  destruct node as [| | | | | |kvs]; try done.
  rewrite !traverse_dict.
  destruct (species_of kvs) as [| | | | | |species]; try done.
  destruct (truthy (name_of species));
    [|cbn [mbind result_bind]; by rewrite app_nil_r].
  cbn zeta. destruct (new_EvolutionStage _ _ _) as [stage|]; [|done].
  cbn [mbind result_bind].
  destruct (dict_lookup "evolves_to" kvs) as [children|] eqn:Hchildren;
    cbn [visit_children]; [|done].
  destruct children as [| | | |[]|items|[]]; try done.
  assert (Forall (λ node, ∀ stages, traverse node stages
            = (emitted ← traverse node []; Ok (stages ++ emitted))) items)
    as Hitems by by eapply IH.
  rewrite (for_each_appends items Hitems (stages ++ [stage])),
          (for_each_appends items Hitems ([] ++ [stage])).
  destruct (for_each traverse items []); cbn [mbind result_bind]; [|done].
  by rewrite <-app_assoc.
Qed.

(** A [chain_link] whose id has no slash: its stage, then its children. *)
Lemma traverse_chain_link name id children stages :
  name ≠ "" → id ≠ "" → no_char "/" id = true → (String.length id ≤ 640)%nat →
  traverse (chain_link name id children) stages
  = for_each traverse children
      (stages ++ [link_stage name (default 0 (py_int (H:=strict_runtime) id))]).
Proof.
  intros Hname Hid Hslash Hlen. unfold chain_link.
  erewrite traverse_named; [|done..]. cbn [dict_lookup String.eqb Ascii.eqb Bool.eqb visit_children].
  do 2 f_equal. unfold stage_of, link_stage, species_ref.
  cbn [dict_lookup String.eqb Ascii.eqb Bool.eqb default from_option Datatypes.id
       poke_id_of].
  rewrite (trailing_piece_is_last_segment _ id).
  - by rewrite py_str_int, py_int_short.
  - exists "https://pokeapi.co/api/v2/pokemon-species/", "/".
    split_and!; try done. right.
    by exists "https://pokeapi.co/api/v2/pokemon-species".
Qed.

End Graphs.

(** ** The loop that removes duplicates *)

Lemma ids_app l1 l2 : ids (l1 ++ l2) = ids l1 ++ ids l2.
Proof. apply map_app. Qed.

Lemma in_ids x stages :
  x ∈ ids stages → ∃ s, s ∈ stages ∧ EvolutionStage.id s = x.
Proof. intros (s & -> & Hs)%list_elem_of_fmap_1. eauto. Qed.

Lemma first_seen_snoc visited s s' : first_seen visited s → first_seen (visited ++ [s']) s.
Proof.
  intros (before & after & -> & Hfirst).
  exists before, (after ++ [s']). by rewrite <-app_assoc.
Qed.

Lemma dedup_invariant_nil : dedup_invariant [] (∅, []).
Proof.
  unfold dedup_invariant. cbn. split_and!.
  - intros x. by rewrite elem_of_empty, elem_of_nil.
  - constructor.
  - apply not_elem_of_nil.
  - done.
  - by intros s ?%elem_of_nil.
  - by intros s ?%elem_of_nil.
Qed.

Lemma dedup_invariant_step visited acc s :
  dedup_invariant visited acc → dedup_invariant (visited ++ [s]) (dedup_step acc s).
Proof.
  destruct acc as [seen deduped].
  intros (Hseen & Hnodup & Hzero & Hsub & Hall & Hfirst). cbn [fst snd] in *.
  unfold dedup_step.
  destruct (bool_decide (EvolutionStage.id s ∉ seen)) eqn:Hnew;
    [destruct (EvolutionStage.id s =? 0) eqn:Hz|]; cbn [andb negb].
  2: {
    apply bool_decide_eq_true in Hnew. apply Z.eqb_neq in Hz.
    assert (EvolutionStage.id s ∉ ids deduped) as Hfresh by by rewrite <-Hseen.
    unfold dedup_invariant. cbn [fst snd]. rewrite ids_app. split_and!.
    - intros x. rewrite elem_of_union, elem_of_singleton, elem_of_app, Hseen.
      cbn. rewrite list_elem_of_singleton. tauto.
    - apply NoDup_app. split_and!; [done| |apply NoDup_singleton].
      intros x Hx ->%list_elem_of_singleton. done.
    - rewrite elem_of_app. intros [?|Hs%list_elem_of_singleton]; [done|].
      by rewrite Hs in Hz.
    - by apply sublist_app.
    - intros s' [Hs'|Hs']%elem_of_app Hne; rewrite elem_of_app.
      + left. by apply Hall.
      + right. apply list_elem_of_singleton in Hs' as ->.
        by apply list_elem_of_singleton.
    - intros s' [Hs'|Hs']%elem_of_app.
      + by apply first_seen_snoc, Hfirst.
      + apply list_elem_of_singleton in Hs' as ->.
        exists visited, []. split; [done|].
        intros (s0 & Hs0 & Hid)%in_ids. apply Hfresh.
        rewrite <-Hid. apply Hall; [done|congruence]. }
  all: unfold dedup_invariant; cbn [fst snd]; split_and!; try done.
  all: try (by apply sublist_inserts_r).
  all: try (intros s' Hs'; by apply first_seen_snoc, Hfirst).
  - intros s' [Hs'|Hs']%elem_of_app Hne; [by apply Hall|].
    apply list_elem_of_singleton in Hs' as ->. apply Z.eqb_eq in Hz. done.
  - intros s' [Hs'|Hs']%elem_of_app Hne; [by apply Hall|].
    apply list_elem_of_singleton in Hs' as ->.
    apply bool_decide_eq_false in Hnew. apply Hseen.
    by apply dec_stable.
Qed.

Lemma dedup_invariant_fold rest visited acc :
  dedup_invariant visited acc →
  dedup_invariant (visited ++ rest) (foldl dedup_step acc rest).
Proof.
  revert visited acc. induction rest as [|s rest IH]; intros visited acc Hinv; cbn.
  - by rewrite app_nil_r.
  - rewrite (assoc_L (++) visited [s] rest : visited ++ s :: rest = (visited ++ [s]) ++ rest).
    by apply IH, dedup_invariant_step.
Qed.

Lemma dedup_all_zero acc stages :
  Forall (λ s, EvolutionStage.id s = 0) stages → foldl dedup_step acc stages = acc.
Proof.
  intros Hzero. revert acc.
  induction Hzero as [|s stages Hs _ IH]; intros [seen deduped]; [done|].
  cbn [foldl].
  assert (dedup_step (seen, deduped) s = (seen, deduped)) as ->; [|apply IH].
  unfold dedup_step. rewrite Hs. cbn [Z.eqb negb]. by rewrite andb_false_r.
Qed.

(** ** The traversal under the recursion limit *)

Lemma depth_dict kvs :
  depth (VDict kvs)
  = S (match dict_lookup "evolves_to" kvs with
       | Some (VList items) =>
           foldr (λ child deepest, Nat.max (depth child) deepest) O items
       | _ => O
       end).
Proof.
  cbn [depth]. rewrite with_key_lookup.
  by destruct (dict_lookup "evolves_to" kvs) as [[]|].
Qed.

Lemma depth_positive node : (1 ≤ depth node)%nat.
Proof. destruct node; cbn [depth]; lia. Qed.

Section Bounded.
Context `{Runtime}.

Lemma traverse_bounded_dict budget kvs stages :
  traverse_bounded (S budget) (VDict kvs) stages =
  match species_of kvs with
  | VDict species =>
      if truthy (name_of species) then
        let poke_id := poke_id_of (default (VStr "") (dict_lookup "url" species)) in
        stage ← new_EvolutionStage (VInt poke_id) (name_of species)
                  (VStr (SPRITE_BASE +:+ py_str (VInt poke_id) +:+ ".png"));
        items ← py_iter (default (VList []) (dict_lookup "evolves_to" kvs));
        for_each (traverse_bounded budget) items (stages ++ [stage])
      else Ok stages
  | _ => Raise AttributeError
  end.
Proof.
  unfold species_of, name_of. cbn [traverse_bounded py_get mbind result_bind].
  destruct (default (VDict []) (dict_lookup "species" kvs)) as [| | | | | |sp]; try done.
  cbn [py_get mbind result_bind].
  destruct (truthy _); cbn [negb]; [|done].
  by destruct (new_EvolutionStage _ _ _).
Qed.

Lemma traverse_bounded_nameless budget node stages :
  nameless node = true → traverse_bounded (S budget) node stages = Ok stages.
Proof.
  destruct node as [| | | | | |kvs]; try done. cbn [nameless].
  rewrite traverse_bounded_dict. destruct (species_of kvs); try done.
  by intros ->%negb_true_iff.
Qed.

Lemma traverse_bounded_not_dict budget node stages :
  (∀ kvs, node ≠ VDict kvs) →
  traverse_bounded budget node stages
  = Raise (match budget with O => RecursionError | S _ => AttributeError end).
Proof.
  intros Hnode. destruct budget; [done|].
  destruct node; try done. by destruct (Hnode kvs).
Qed.

(** What the bounded traversal returns, the traversal without a limit
    returns. *)
Lemma traverse_bounded_sound budget :
  ∀ node stages out,
    traverse_bounded budget node stages = Ok out → traverse node stages = Ok out.
Proof.
  induction budget as [|budget IH]; intros node stages out; [done|].
  destruct node as [| | | | | |kvs]; try done.
  rewrite traverse_bounded_dict, traverse_dict.
  destruct (species_of kvs) as [| | | | | |species]; try done.
  destruct (truthy (name_of species)); [|done]. cbn zeta.
  destruct (new_EvolutionStage _ _ _) as [stage|]; [|done].
  cbn [mbind result_bind].
  assert (∀ items stages out,
            for_each (traverse_bounded budget) items stages = Ok out →
            for_each traverse items stages = Ok out) as Hloop.
  { induction items as [|item items IHitems]; intros stages' out'; [done|].
    rewrite !for_each_cons.
    destruct (traverse_bounded budget item stages') as [stages''|] eqn:Hitem;
      cbn [mbind result_bind]; [|done].
    rewrite (IH _ _ _ Hitem). cbn [mbind result_bind]. by apply IHitems. }
  destruct (dict_lookup "evolves_to" kvs) as [children|];
    cbn [default from_option Datatypes.id visit_children]; [|done].
  destruct children as [| | | |s|items|fields]; try done.
  - destruct s as [|a s]; [done|]. cbn [py_iter mbind result_bind].
    cbn [list_ascii_of_string map]. rewrite for_each_cons.
    rewrite traverse_bounded_not_dict by done. by destruct budget.
  - cbn [py_iter mbind result_bind]. apply Hloop.
  - destruct fields as [|[k v] fields]; [done|]. cbn [py_iter mbind result_bind map].
    rewrite for_each_cons, traverse_bounded_not_dict by done. by destruct budget.
Qed.

Lemma for_each_bounded_total budget items :
  Forall (λ node, ∀ stages, ∃ out, traverse_bounded budget node stages = Ok out) items →
  ∀ stages, ∃ out, for_each (traverse_bounded budget) items stages = Ok out.
Proof.
  induction 1 as [|item items Hitem _ IH]; intros stages; [by exists stages|].
  destruct (Hitem stages) as [stages' Hs].
  rewrite for_each_cons, Hs. cbn [mbind result_bind]. apply IH.
Qed.

(** On a well-formed graph no deeper than the budget the bounded
    traversal returns. *)
Lemma traverse_bounded_total budget :
  ∀ node, well_formed node = true → (depth node ≤ budget)%nat →
          ∀ stages, ∃ out, traverse_bounded budget node stages = Ok out.
Proof.
  induction budget as [|budget IH]; intros node Hwf Hdepth stages.
  { pose proof (depth_positive node). lia. }
  destruct node as [| | | | | |kvs]; try done.
  rewrite well_formed_dict in Hwf. rewrite depth_dict in Hdepth.
  rewrite traverse_bounded_dict.
  destruct (species_of kvs) as [| | | | | |species]; try done.
  destruct (truthy (name_of species)); cbn [negb] in *; [|by eexists].
  destruct (name_of species) as [| | | |name| |]; try done.
  cbn zeta. rewrite new_EvolutionStage_str. cbn [mbind result_bind].
  destruct (dict_lookup "evolves_to" kvs) as [children|];
    cbn [default from_option Datatypes.id]; [|by eexists].
  destruct children as [| | | | |items|]; try done.
  cbn [py_iter mbind result_bind]. apply for_each_bounded_total.
  apply Forall_forall. intros item Hitem. apply IH.
  - rewrite forallb_forall in Hwf. apply Hwf. by apply list_elem_of_In.
  - assert (∀ l, item ∈ l →
              (depth item ≤ foldr (λ child deepest, Nat.max (depth child) deepest) O l)%nat)
      as Hmax.
    { induction l as [|c l IHl]; [by intros ?%elem_of_nil|].
      intros [->|Hin]%elem_of_cons; cbn [foldr]; [lia|].
      specialize (IHl Hin). lia. }
    specialize (Hmax items Hitem). lia.
Qed.

End Bounded.

(** ** build_evolution_chain *)

Ltac run_traverse :=
  repeat first
    [ rewrite traverse_chain_link by first [done | cbn; lia]
    | rewrite for_each_cons
    | rewrite for_each_nil
    | progress cbn [mbind result_bind] ].

Section BuildEvolutionChain.
Context `{Runtime}.

Lemma build_nameless node : nameless node = true → build_evolution_chain node = Ok [].
Proof.
  intros Hnode. unfold build_evolution_chain.
  by rewrite (traverse_nameless _ _ Hnode).
Qed.

(** C1, as amended.  A node without a resolvable species name emits no
    stage and its children are not visited: [traverse] returns at once, with
    the stages unchanged, whatever stands below the node.  The traversal
    goes on with the nodes that follow it among its siblings, and a root
    without a name gives the empty sequence. *)
Theorem nameless_node_prunes_subtree node :
  nameless node = true →
  (∀ stages, traverse node stages = Ok stages) ∧
  (∀ before after stages,
     for_each traverse (before ++ node :: after) stages
     = for_each traverse (before ++ after) stages) ∧
  build_evolution_chain node = Ok [].
Proof.
  intros Hnode. split_and!.
  - intros stages. by apply traverse_nameless.
  - intros before after stages. rewrite !for_each_app.
    destruct (for_each traverse before stages) as [stages'|];
      cbn [mbind result_bind]; [|done].
    by rewrite for_each_cons, (traverse_nameless _ _ Hnode).
  - by apply build_nameless.
Qed.


(** C3.  [traverse] is a pre-order, depth-first visit: a node with a name
    appends its own stage and then visits its children, the children are
    visited one after the other in the order of the source list, and a
    visit only appends to the stages collected before it.  On the root 1
    with the children 2 and 3, where 2 has the child 4, the ids come out as
    1, 2, 4, 3. *)
Theorem traverse_preorder :
  (∀ kvs species name items stages,
     species_of kvs = VDict species →
     name_of species = VStr name → name ≠ "" →
     dict_lookup "evolves_to" kvs = Some (VList items) →
     traverse (VDict kvs) stages
     = for_each traverse items (stages ++ [stage_of species name])) ∧
  (∀ child rest stages,
     for_each traverse (child :: rest) stages
     = (stages' ← traverse child stages; for_each traverse rest stages')) ∧
  (∀ node stages,
     traverse node stages = (emitted ← traverse node []; Ok (stages ++ emitted))) ∧
  (∃ out, build_evolution_chain branching_chain = Ok out ∧ ids out = [1; 2; 4; 3]).
Proof.
  split_and!.
  - intros kvs species name items stages Hsp Hname Hne Hchildren.
    by rewrite (traverse_named _ _ _ _ Hsp Hname Hne), Hchildren.
  - done.
  - apply traverse_appends.
  - unfold build_evolution_chain, branching_chain. run_traverse.
    eexists. split; [reflexivity|]. vm_compute. reflexivity.
Qed.

Lemma stage_of_id species name :
  EvolutionStage.id (stage_of species name)
  = poke_id_of (default (VStr "") (dict_lookup "url" species)).
Proof. done. Qed.

(** C4, as amended.  A node whose species has a name that is a
    non-empty [str] appends one stage and then visits its children,
    whatever the id turns out to be.  The id of the stage is [int] of the
    last non-empty piece of the species URL between slashes, for a piece of
    ASCII characters; it is 0 when [int] refuses that piece, when the URL
    has no such piece, when the species carries no URL and when the URL is
    not a [str].  A node without a species reference, or with one that has
    no name, appends no stage and its children are not visited.  In
    [reconverging_chain] the node whose URL ends in [x] gets the id 0 and
    the nodes after it are still visited. *)
Theorem stage_id_from_url :
  (∀ kvs species name stages,
     species_of kvs = VDict species →
     name_of species = VStr name → name ≠ "" →
     traverse (VDict kvs) stages
     = visit_children (dict_lookup "evolves_to" kvs)
         (stages ++ [stage_of species name])) ∧
  (∀ species name url segment,
     dict_lookup "url" species = Some (VStr url) →
     last_nonempty_segment url segment →
     ascii_only segment = true →
     EvolutionStage.id (stage_of species name) = default 0 (py_int segment)) ∧
  (∀ species name url,
     dict_lookup "url" species = Some (VStr url) →
     (¬ ∃ segment, last_nonempty_segment url segment) →
     EvolutionStage.id (stage_of species name) = 0) ∧
  (∀ species name,
     dict_lookup "url" species = None →
     EvolutionStage.id (stage_of species name) = 0) ∧
  (∀ species name v,
     dict_lookup "url" species = Some v → (∀ url, v ≠ VStr url) →
     EvolutionStage.id (stage_of species name) = 0) ∧
  (∀ kvs stages,
     (dict_lookup "species" kvs = None ∨
      ∃ species, dict_lookup "species" kvs = Some (VDict species) ∧
                 truthy (name_of species) = false) →
     traverse (VDict kvs) stages = Ok stages) ∧
  (∃ stages, traverse reconverging_chain [] = Ok stages ∧
             ids stages = [1; 2; 4; 0; 3; 4]).
Proof.
  split_and!.
  - apply traverse_named.
  - intros species name url segment Hurl Hseg _.
    rewrite stage_of_id, Hurl. cbn [default from_option Datatypes.id poke_id_of].
    by rewrite (trailing_piece_is_last_segment _ _ Hseg).
  - intros species name url Hurl Hnone.
    rewrite stage_of_id, Hurl. cbn [default from_option Datatypes.id poke_id_of].
    destruct (last_segment_or_slashes url) as [Hsl|Hseg]; [|done].
    by rewrite (trailing_piece_all_slashes _ Hsl).
  - intros species name Hurl. by rewrite stage_of_id, Hurl.
  - intros species name v Hurl Hv. rewrite stage_of_id, Hurl.
    destruct v; try done. by destruct (Hv s).
  - intros kvs stages Hspecies. apply traverse_nameless.
    cbn [nameless]. unfold species_of.
    destruct Hspecies as [->|(species & -> & Hname)]; [done|].
    cbn [default from_option Datatypes.id]. by rewrite Hname.
  - unfold reconverging_chain. run_traverse.
    eexists. split; [reflexivity|]. vm_compute. reflexivity.
Qed.

(** C5, as amended.  [build_evolution_chain] returns on every
    well-formed graph that is no deeper than the number of nested calls the
    interpreter allows, and what it returns under that limit it returns
    without it.  It returns the empty sequence on the empty object, on a
    root without a resolvable name, and whenever no stage of the traversal
    has an id other than 0.  It raises on a root that is not an object. *)
Theorem build_evolution_chain_returns :
  (∀ budget node,
     well_formed node = true → (depth node ≤ budget)%nat →
     ∃ out, build_evolution_chain_bounded budget node = Ok out) ∧
  (∀ budget node out,
     build_evolution_chain_bounded budget node = Ok out →
     build_evolution_chain node = Ok out) ∧
  (∀ budget, build_evolution_chain_bounded (S budget) (VDict []) = Ok []) ∧
  (∀ budget node,
     nameless node = true → build_evolution_chain_bounded (S budget) node = Ok []) ∧
  (∀ budget node stages,
     traverse_bounded budget node [] = Ok stages →
     Forall (λ s, EvolutionStage.id s = 0) stages →
     build_evolution_chain_bounded budget node = Ok []) ∧
  (∀ budget node,
     (∀ kvs, node ≠ VDict kvs) →
     build_evolution_chain_bounded budget node
     = Raise (match budget with O => RecursionError | S _ => AttributeError end)).
Proof.
  split_and!.
  - intros budget node Hwf Hdepth. unfold build_evolution_chain_bounded.
    destruct (traverse_bounded_total budget node Hwf Hdepth []) as [stages ->].
    by eexists.
  - intros budget node out. unfold build_evolution_chain_bounded, build_evolution_chain.
    destruct (traverse_bounded budget node []) as [stages|] eqn:Hstages; [|done].
    by rewrite (traverse_bounded_sound _ _ _ _ Hstages).
  - done.
  - intros budget node Hnode. unfold build_evolution_chain_bounded.
    by rewrite (traverse_bounded_nameless _ _ _ Hnode).
  - intros budget node stages Hstages Hzero. unfold build_evolution_chain_bounded.
    rewrite Hstages. cbn [mbind result_bind].
    by rewrite (dedup_all_zero _ _ Hzero).
  - intros budget node Hnode. unfold build_evolution_chain_bounded.
    by rewrite (traverse_bounded_not_dict _ _ _ Hnode).
Qed.

End BuildEvolutionChain.

(** The proofs above at the root of [nameless_parent]. *)
Lemma nameless_node_prunes_subtree_witness :
  nameless nameless_parent = true ∧
  (∀ stages, traverse (H:=strict_runtime) nameless_parent stages = Ok stages) ∧
  (∀ before after stages,
     for_each (traverse (H:=strict_runtime)) (before ++ nameless_parent :: after) stages
     = for_each traverse (before ++ after) stages) ∧
  build_evolution_chain (H:=strict_runtime) nameless_parent = Ok [].
Proof.
  split; [reflexivity|].
  apply (nameless_node_prunes_subtree (H:=strict_runtime) nameless_parent).
  reflexivity.
Defined.

(** C1 as stated fails: the child of [nameless_parent] has a name and the
    id 7, and it is not emitted. *)
Lemma nameless_parent_hides_child :
  nameless nameless_parent = true ∧
  build_evolution_chain (H:=strict_runtime) nameless_parent = Ok [] ∧
  build_evolution_chain (H:=strict_runtime) (chain_link "child" "7" [])
  = Ok [link_stage "child" 7] ∧
  ¬ (∀ kvs items stages,
       nameless (VDict kvs) = true →
       dict_lookup "evolves_to" kvs = Some (VList items) →
       traverse (H:=strict_runtime) (VDict kvs) stages
       = for_each traverse items stages).
Proof.
  split_and!; [reflexivity|reflexivity|by vm_compute|].
  intros Hclaim.
  specialize (Hclaim [("species", VDict []);
                      ("evolves_to", VList [chain_link "child" "7" []])]
                     [chain_link "child" "7" []] [] eq_refl eq_refl).
  vm_compute in Hclaim. discriminate Hclaim.
Qed.

(** C4 as stated fails when the species reference is absent: the node
    gets no stage with the id 0, and its child, which has a name and the id
    7, is not visited. *)
Lemma absent_reference_stops_the_traversal :
  dict_lookup "species" [("evolves_to", VList [chain_link "child" "7" []])] = None ∧
  traverse (H:=strict_runtime) no_species_parent [] = Ok [] ∧
  build_evolution_chain (H:=strict_runtime) no_species_parent = Ok [] ∧
  ¬ (∀ kvs items stages,
       dict_lookup "species" kvs = None →
       dict_lookup "evolves_to" kvs = Some (VList items) →
       ∃ stage,
         EvolutionStage.id stage = 0 ∧
         traverse (H:=strict_runtime) (VDict kvs) stages
         = for_each traverse items (stages ++ [stage])).
Proof.
  split_and!; [reflexivity|reflexivity|reflexivity|].
  intros Hclaim.
  destruct (Hclaim [("evolves_to", VList [chain_link "child" "7" []])]
                   [chain_link "child" "7" []] [] eq_refl eq_refl)
    as (stage & _ & Hstage).
  vm_compute in Hstage. discriminate Hstage.
Qed.


(** C5 as stated fails: a root that is [None] and a node whose children
    are [None] make [build_evolution_chain] raise. *)
Lemma build_evolution_chain_raises :
  build_evolution_chain (H:=strict_runtime) VNone = Raise AttributeError ∧
  build_evolution_chain (H:=strict_runtime)
    (VDict [("species", species_ref "one" "1"); ("evolves_to", VNone)])
  = Raise TypeError ∧
  ¬ (∀ node, ∃ out, build_evolution_chain (H:=strict_runtime) node = Ok out).
Proof.
  split_and!; [reflexivity|by vm_compute|].
  intros Hclaim. by destruct (Hclaim VNone).
Qed.

(** ** normalize_pokemon *)

Lemma bind_Ok {A B} (m : result A) (k : A → result B) b :
  m ≫= k = Ok b → ∃ a, m = Ok a ∧ k a = Ok b.
Proof. destruct m as [a|e]; [by exists a|done]. Qed.

Tactic Notation "bind_inv" hyp(H) "as" ident(a) ident(Ha) :=
  apply bind_Ok in H as (a & Ha & H).

Section Normalize.
Context `{Runtime}.

Lemma new_Pokemon_Ok pid name types height weight stats sprite spriteHD evolution p :
  new_Pokemon pid (VStr name) types height weight stats sprite spriteHD evolution = Ok p →
  Pokemon.name p = name ∧ Pokemon.height p = height ∧ Pokemon.weight p = weight ∧
  Pokemon.stats p = stats ∧ Pokemon.evolution p = evolution.
Proof.
  unfold new_Pokemon. rewrite validate_str_str.
  destruct (validate_int pid), (mapM validate_str types),
    (validate_str sprite), (validate_str spriteHD); try done.
  by intros [= <-].
Qed.

Lemma new_Pokemon_evolution pid name types height weight stats sprite spriteHD evolution p evolution' :
  new_Pokemon pid name types height weight stats sprite spriteHD evolution = Ok p →
  new_Pokemon pid name types height weight stats sprite spriteHD evolution'
  = Ok (set_evolution evolution' p).
Proof.
  unfold new_Pokemon.
  destruct (validate_int pid), (validate_str name), (mapM validate_str types),
    (validate_str sprite), (validate_str spriteHD); try done.
  by intros [= <-].
Qed.

Lemma normalize_pokemon_Ok w raw p :
  normalize_pokemon w raw = Ok p →
  ∃ kvs slug,
    raw = VDict kvs ∧
    build_stats raw = Ok (Pokemon.stats p) ∧
    lookup_evolution w (default VNone (dict_lookup "id" kvs)) = Ok (Pokemon.evolution p) ∧
    default (VStr "") (dict_lookup "name" kvs) = VStr slug ∧
    Pokemon.name p = title slug ∧
    py_truediv (default (VInt 0) (dict_lookup "height" kvs)) 10%float = Ok (Pokemon.height p) ∧
    py_truediv (default (VInt 0) (dict_lookup "weight" kvs)) 10%float = Ok (Pokemon.weight p).
Proof.
  unfold normalize_pokemon. intros Hp.
  destruct raw as [| | | | | |kvs]; try done.
  cbn [py_get] in Hp.
  bind_inv Hp as source Hsource. bind_inv Hp as items Hitems.
  bind_inv Hp as types Htypes. bind_inv Hp as stats Hstats.
  bind_inv Hp as pid Hpid. injection Hpid as <-.
  bind_inv Hp as evolution Hevolution.
  bind_inv Hp as slug_v Hslug. injection Hslug as <-.
  bind_inv Hp as name Hname.
  bind_inv Hp as h Hh. injection Hh as <-.
  bind_inv Hp as height Hheight.
  bind_inv Hp as wt Hwt. injection Hwt as <-.
  bind_inv Hp as weight Hweight.
  destruct (default (VStr "") (dict_lookup "name" kvs)) as [| | | |slug| |] eqn:Hslug;
    try done.
  injection Hname as Hname. subst name.
  apply new_Pokemon_Ok in Hp as (Hn & Hht & Hwt & Hst & Hev).
  exists kvs, slug. by rewrite Hn, Hht, Hwt, Hst, Hev.
Qed.

Lemma normalize_pokemon_upstream w w' kvs p evolution :
  normalize_pokemon w' (VDict kvs) = Ok p →
  lookup_evolution w (default VNone (dict_lookup "id" kvs)) = Ok evolution →
  normalize_pokemon w (VDict kvs) = Ok (set_evolution evolution p).
Proof.
  unfold normalize_pokemon. intros Hp Hevo. cbn [py_get] in *.
  bind_inv Hp as source Hsource. bind_inv Hp as items Hitems.
  bind_inv Hp as types Htypes. bind_inv Hp as stats Hstats.
  bind_inv Hp as pid Hpid. injection Hpid as <-.
  bind_inv Hp as evolution' Hevolution.
  bind_inv Hp as slug_v Hslug. injection Hslug as <-.
  bind_inv Hp as name Hname.
  bind_inv Hp as h Hh. injection Hh as <-.
  bind_inv Hp as height Hheight.
  bind_inv Hp as wt Hwt. injection Hwt as <-.
  bind_inv Hp as weight Hweight.
  rewrite Hsource. cbn [mbind result_bind]. rewrite Hitems. cbn [mbind result_bind].
  rewrite Htypes. cbn [mbind result_bind]. rewrite Hstats. cbn [mbind result_bind].
  rewrite Hevo. cbn [mbind result_bind].
  rewrite Hname. cbn [mbind result_bind].
  rewrite Hheight. cbn [mbind result_bind].
  rewrite Hweight. cbn [mbind result_bind].
  by eapply new_Pokemon_evolution.
Qed.

Lemma lookup_evolution_not_found w pid : not_found w pid → lookup_evolution w pid = Ok [].
Proof.
  unfold lookup_evolution, fetch_species, fetch_evolution_chain, fetch_secondary.
  intros [(status_code & json & -> & Hstatus)
         |(species & url & status_code & json & -> & Hurl & Htruthy & Hchain & Hstatus)].
  - apply Z.eqb_neq in Hstatus. by rewrite Hstatus.
  - cbn [Z.eqb Pos.eqb negb mbind result_bind]. rewrite Hurl. cbn [mbind result_bind].
    rewrite Htruthy, Hchain. apply Z.eqb_neq in Hstatus. by rewrite Hstatus.
Qed.

(** C6, as amended.  When the species lookup, or the evolution-chain
    lookup for the URL the species carries, is answered with a status other
    than 200, the two lookups give the empty evolution list: a Pokemon that
    [normalize_pokemon] returns has no evolution, and it returns one
    whenever the record normalises with some upstream, the same Pokemon but
    for the evolution. *)
Theorem secondary_lookup_not_found w kvs :
  not_found w (default VNone (dict_lookup "id" kvs)) →
  lookup_evolution w (default VNone (dict_lookup "id" kvs)) = Ok [] ∧
  (∀ p, normalize_pokemon w (VDict kvs) = Ok p → Pokemon.evolution p = []) ∧
  (∀ w' p, normalize_pokemon w' (VDict kvs) = Ok p →
           normalize_pokemon w (VDict kvs) = Ok (set_evolution [] p)).
Proof.
  intros Hevo%lookup_evolution_not_found. split_and!; [done| |].
  - intros p (kvs' & slug & [= <-] & _ & Hp & _)%normalize_pokemon_Ok.
    rewrite Hevo in Hp. by injection Hp.
  - intros w' p Hp. by apply (normalize_pokemon_upstream _ w').
Qed.

(** ** Stats *)

Lemma map_m_app {A B} (f : A → result B) l1 l2 :
  map_m f (l1 ++ l2) = (b1 ← map_m f l1; b2 ← map_m f l2; Ok (b1 ++ b2)).
Proof.
  induction l1 as [|a l1 IH]; cbn [map_m app mbind result_bind].
  - by destruct (map_m f l2).
  - destruct (f a); cbn [mbind result_bind]; [|done]. rewrite IH.
    destruct (map_m f l1); cbn [mbind result_bind]; [|done].
    by destruct (map_m f l2).
Qed.

Lemma key_is_false key k : k ≠ VStr key → key_is key k = false.
Proof.
  destruct k; try done. cbn. intros Hne.
  apply String.eqb_neq. congruence.
Qed.

Lemma log_get_app log1 log2 key dflt :
  log_get (log1 ++ log2) key dflt = log_get log2 key (log_get log1 key dflt).
Proof. unfold log_get. by rewrite foldl_app. Qed.

Lemma log_get_absent log key dflt :
  Forall (λ kv, key_is key kv.1 = false) log → log_get log key dflt = dflt.
Proof.
  unfold log_get. induction 1 as [|kv log Hkv _ IH]; [done|].
  cbn [foldl]. by rewrite Hkv.
Qed.

Lemma log_get_last before k v after key dflt :
  key_is key k = true → Forall (λ kv, key_is key kv.1 = false) after →
  log_get (before ++ (k, v) :: after) key dflt = v.
Proof.
  intros Hk Hafter. rewrite log_get_app.
  change ((k, v) :: after) with ([(k, v)] ++ after).
  rewrite log_get_app, (log_get_absent after) by done.
  unfold log_get. cbn [foldl fst snd]. by rewrite Hk.
Qed.

Lemma log_get_remove before k v after key dflt :
  key_is key k = false →
  log_get (before ++ (k, v) :: after) key dflt = log_get (before ++ after) key dflt.
Proof.
  intros Hk. rewrite !log_get_app.
  unfold log_get. cbn [foldl fst snd]. by rewrite Hk.
Qed.

Lemma new_Stats_Ok a b c d e f st :
  new_Stats a b c d e f = Ok st →
  validate_int a = Some (Stats.hp st) ∧ validate_int b = Some (Stats.attack st) ∧
  validate_int c = Some (Stats.defense st) ∧
  validate_int d = Some (Stats.special_attack st) ∧
  validate_int e = Some (Stats.special_defense st) ∧
  validate_int f = Some (Stats.speed st).
Proof.
  unfold new_Stats.
  destruct (validate_int a), (validate_int b), (validate_int c),
    (validate_int d), (validate_int e), (validate_int f); try done.
  by intros [= <-].
Qed.

Lemma build_stats_items raw :
  build_stats raw =
  (items ← stats_items raw;
   stats_map ← map_m stat_entry items;
   new_Stats (log_get stats_map "hp" (VInt 0))
             (log_get stats_map "attack" (VInt 0))
             (log_get stats_map "defense" (VInt 0))
             (log_get stats_map "special-attack" (VInt 0))
             (log_get stats_map "special-defense" (VInt 0))
             (log_get stats_map "speed" (VInt 0))).
Proof.
  unfold build_stats, stats_items.
  by destruct (py_get raw "stats" (VList [])).
Qed.

Lemma build_stats_field raw items entries st key :
  stats_items raw = Ok items → map_m stat_entry items = Ok entries →
  build_stats raw = Ok st → key ∈ recognised →
  validate_int (log_get entries key (VInt 0)) = field_of st key.
Proof.
  intros Hitems Hentries. rewrite build_stats_items, Hitems. cbn [mbind result_bind].
  rewrite Hentries. cbn [mbind result_bind].
  intros (? & ? & ? & ? & ? & ?)%new_Stats_Ok Hkey.
  unfold recognised in Hkey.
  repeat (apply elem_of_cons in Hkey as [->|Hkey]; [done|]).
  by apply elem_of_nil in Hkey.
Qed.

(** C7.  The [Stats] of the Pokemon that [normalize_pokemon] returns are
    read off the [(name, base_stat)] entries of the source list by the six
    recognised names: a field holds the base stat of the last entry under
    its name, and 0 when no entry has that name; an item whose name is not
    recognised can be removed from the source list without changing the
    [Stats]. *)
Theorem stats_keyed_by_recognised_names w raw p :
  normalize_pokemon w raw = Ok p →
  ∃ items entries,
    stats_items raw = Ok items ∧
    map_m stat_entry items = Ok entries ∧
    (∀ key before base_stat after,
       key ∈ recognised →
       entries = before ++ (VStr key, VInt base_stat) :: after →
       Forall (λ kv, kv.1 ≠ VStr key) after →
       field_of (Pokemon.stats p) key = Some base_stat) ∧
    (∀ key,
       key ∈ recognised → Forall (λ kv, kv.1 ≠ VStr key) entries →
       field_of (Pokemon.stats p) key = Some 0) ∧
    (∀ before item after raw',
       items = before ++ item :: after → unrecognised_item item →
       stats_items raw' = Ok (before ++ after) →
       build_stats raw' = Ok (Pokemon.stats p)).
Proof.
  intros (kvs & slug & -> & Hstats & _)%normalize_pokemon_Ok.
  pose proof Hstats as Hbuild. rewrite build_stats_items in Hbuild.
  bind_inv Hbuild as items Hitems. bind_inv Hbuild as entries Hentries.
  exists items, entries. split_and!; [done|done| | |].
  - intros key before base_stat after Hkey -> Hafter.
    rewrite <-(build_stats_field _ _ _ _ key Hitems Hentries Hstats Hkey).
    rewrite log_get_last, validate_int_int; [done|cbn; apply String.eqb_refl|].
    eapply Forall_impl; [exact Hafter|]. intros kv. apply key_is_false.
  - intros key Hkey Habsent.
    rewrite <-(build_stats_field _ _ _ _ key Hitems Hentries Hstats Hkey).
    rewrite log_get_absent, validate_int_int; [done|].
    eapply Forall_impl; [exact Habsent|]. intros kv. apply key_is_false.
  - intros before item after raw' -> (name & base_stat & Hitem & Hname) Hitems'.
    rewrite map_m_app in Hentries.
    bind_inv Hentries as eb Heb. bind_inv Hentries as ea Hea.
    injection Hentries as <-. cbn [map_m] in Hea. rewrite Hitem in Hea.
    cbn [mbind result_bind] in Hea.
    bind_inv Hea as ea' Hea'. injection Hea as <-.
    rewrite build_stats_items, Hitems'. cbn [mbind result_bind].
    rewrite map_m_app, Heb, Hea'. cbn [mbind result_bind].
    rewrite <-Hbuild.
    rewrite !log_get_remove; [done|apply Hname; unfold recognised..];
      rewrite !elem_of_cons; tauto.
Qed.


(** ** name, height, weight *)

Lemma lower_not_upper a : is_lower a = true → is_upper a = false.
Proof.
  unfold is_lower, is_upper.
  intros [H1 H2]%andb_true_iff. apply Nat.leb_le in H1.
  apply andb_false_iff. right. apply Nat.leb_gt. lia.
Qed.

Lemma title_from_length previous_is_cased s :
  String.length (title_from previous_is_cased s) = String.length s.
Proof.
  revert previous_is_cased. induction s as [|a s IH]; intros previous_is_cased; [done|].
  cbn [title_from]. destruct (is_lower a), (is_upper a); cbn [String.length]; by rewrite IH.
Qed.

Lemma title_from_get previous_is_cased s i a :
  String.get i s = Some a →
  String.get i (title_from previous_is_cased s)
  = Some (if is_letter a
          then (if match i with
                   | O => negb previous_is_cased
                   | S j => starts_word s i
                   end
                then to_upper a else to_lower a)
          else a).
Proof.
  revert previous_is_cased i.
  induction s as [|b s IH]; intros previous_is_cased i; [by destruct i|].
  destruct i as [|i]; cbn [String.get title_from].
  - intros [= ->]. unfold is_letter, to_upper, to_lower.
    destruct (is_lower a) eqn:Hlower.
    + rewrite (lower_not_upper _ Hlower). by destruct previous_is_cased.
    + destruct (is_upper a); by destruct previous_is_cased.
  - intros Hget.
    assert (∀ cased c, cased = is_letter b →
              String.get (S i) (String c (title_from cased s))
              = Some (if is_letter a
                      then (if starts_word (String b s) (S i)
                            then to_upper a else to_lower a)
                      else a)) as Hstep.
    { intros cased c ->. cbn [String.get]. rewrite (IH _ _ Hget).
      destruct i as [|i]; [done|]. done. }
    unfold is_letter in Hstep.
    destruct (is_lower b), (is_upper b); by apply Hstep.
Qed.

(** C8, as amended.  For a source slug of ASCII characters, the name of
    the Pokemon is [title] of the slug: as long as the slug, with every
    letter that starts a run of letters in upper case, every other letter
    in lower case, and every character that is not a letter unchanged. *)
Theorem name_is_title_of_slug w kvs slug p :
  normalize_pokemon w (VDict kvs) = Ok p →
  dict_lookup "name" kvs = Some (VStr slug) →
  ascii_only slug = true →
  Pokemon.name p = title slug ∧
  String.length (title slug) = String.length slug ∧
  (∀ i a, String.get i slug = Some a →
          String.get i (title slug) = Some (title_char slug i a)).
Proof.
  intros (kvs' & slug' & [= <-] & _ & _ & Hslug & Hname & _)%normalize_pokemon_Ok Hkey _.
  rewrite Hkey in Hslug. injection Hslug as <-.
  split_and!; [done|apply title_from_length|].
  intros i a Hget. unfold title. rewrite (title_from_get _ _ _ _ Hget).
  unfold title_char. by destruct i.
Qed.

(** C9.  The height and the weight of the Pokemon are the source
    integers, converted to the nearest double, divided by 10.0; a source
    height of 7 gives 0.7. *)
#[warnings="-inexact-float"]
Theorem height_weight_divided_by_ten w kvs p :
  normalize_pokemon w (VDict kvs) = Ok p →
  (∀ h, dict_lookup "height" kvs = Some (VInt h) →
        Pokemon.height p = (nearest_float h / 10)%float) ∧
  (∀ wt, dict_lookup "weight" kvs = Some (VInt wt) →
         Pokemon.weight p = (nearest_float wt / 10)%float) ∧
  (dict_lookup "height" kvs = Some (VInt 7) → Pokemon.height p = 0.7%float).
Proof.
  intros (kvs' & slug' & [= <-] & _ & _ & _ & _ & Hheight & Hweight)%normalize_pokemon_Ok.
  assert (∀ v n x, v = VInt n → py_truediv v 10%float = Ok x →
                   x = (nearest_float n / 10)%float) as Hdiv.
  { intros v n x -> Hx. unfold py_truediv, float_of_int in Hx.
    destruct (PrimFloat.is_infinity (nearest_float n)); [done|].
    cbn [mbind result_bind] in Hx.
    by destruct (PrimFloat.eqb 10 0); [|injection Hx as <-]. }
  split_and!.
  - intros h Hh. rewrite Hh in Hheight. by apply (Hdiv _ _ _ eq_refl Hheight).
  - intros wt Hwt. rewrite Hwt in Hweight. by apply (Hdiv _ _ _ eq_refl Hweight).
  - intros Hh. rewrite Hh in Hheight. by rewrite (Hdiv _ _ _ eq_refl Hheight).
Qed.





End Normalize.

Lemma secondary_lookup_not_found_witness :
  not_found nothing_found (default VNone (dict_lookup "id" pikachu_fields)) ∧
  lookup_evolution (H:=strict_runtime) nothing_found
    (default VNone (dict_lookup "id" pikachu_fields)) = Ok [] ∧
  (∀ p, normalize_pokemon (H:=strict_runtime) nothing_found (VDict pikachu_fields) = Ok p →
        Pokemon.evolution p = []) ∧
  (∀ w' p, normalize_pokemon (H:=strict_runtime) w' (VDict pikachu_fields) = Ok p →
           normalize_pokemon nothing_found (VDict pikachu_fields)
           = Ok (set_evolution [] p)).
Proof.
  assert (not_found nothing_found (default VNone (dict_lookup "id" pikachu_fields)))
    as Hnot_found.
  { left. exists 404, None. split; [reflexivity|discriminate]. }
  split; [exact Hnot_found|].
  exact (secondary_lookup_not_found (H:=strict_runtime) nothing_found pikachu_fields
           Hnot_found).
Defined.

(** C6 as stated fails for a transport failure: when the species request,
    or the evolution-chain request, gets no response, [normalize_pokemon]
    raises, on a record that normalises when the upstream answers. *)
Lemma transport_failure_propagates :
  normalize_pokemon (H:=strict_runtime) unreachable pikachu = Raise ConnectionError ∧
  normalize_pokemon (H:=strict_runtime) chain_unreachable pikachu
  = Raise ConnectionError ∧
  normalize_pokemon (H:=strict_runtime) pokeapi pikachu = Ok pikachu_normalized.
Proof. split_and!; by vm_compute. Qed.

Lemma stats_keyed_by_recognised_names_witness :
  normalize_pokemon (H:=strict_runtime) pokeapi pikachu = Ok pikachu_normalized ∧
  ∃ items entries,
    stats_items pikachu = Ok items ∧
    map_m stat_entry items = Ok entries ∧
    (∀ key before base_stat after,
       key ∈ recognised →
       entries = before ++ (VStr key, VInt base_stat) :: after →
       Forall (λ kv, kv.1 ≠ VStr key) after →
       field_of (Pokemon.stats pikachu_normalized) key = Some base_stat) ∧
    (∀ key,
       key ∈ recognised → Forall (λ kv, kv.1 ≠ VStr key) entries →
       field_of (Pokemon.stats pikachu_normalized) key = Some 0) ∧
    (∀ before item after raw',
       items = before ++ item :: after → unrecognised_item item →
       stats_items raw' = Ok (before ++ after) →
       build_stats (H:=strict_runtime) raw' = Ok (Pokemon.stats pikachu_normalized)).
Proof.
  split; [by vm_compute|].
  apply (stats_keyed_by_recognised_names (H:=strict_runtime) pokeapi pikachu).
  by vm_compute.
Defined.

Lemma name_is_title_of_slug_witness :
  normalize_pokemon (H:=strict_runtime) pokeapi (VDict mr_mime_fields)
  = Ok mr_mime_normalized ∧
  dict_lookup "name" mr_mime_fields = Some (VStr "mr-mime") ∧
  ascii_only "mr-mime" = true ∧
  Pokemon.name mr_mime_normalized = title "mr-mime" ∧
  String.length (title "mr-mime") = String.length "mr-mime" ∧
  (∀ i a, String.get i "mr-mime" = Some a →
          String.get i (title "mr-mime") = Some (title_char "mr-mime" i a)).
Proof.
  split; [by vm_compute|]. split; [reflexivity|]. split; [reflexivity|].
  apply (name_is_title_of_slug (H:=strict_runtime) pokeapi mr_mime_fields).
  - by vm_compute.
  - reflexivity.
  - reflexivity.
Defined.

(** C8 as stated fails: [title] starts a new word after a hyphen, and it
    puts the rest of a word in lower case. *)
Lemma title_is_not_capitalize_words :
  normalize_pokemon (H:=strict_runtime) pokeapi mr_mime = Ok mr_mime_normalized ∧
  Pokemon.name mr_mime_normalized = "Mr-Mime" ∧
  capitalize_words "mr-mime" = "Mr-mime" ∧
  Pokemon.name mr_mime_normalized ≠ capitalize_words "mr-mime" ∧
  title "pIKACHU" = "Pikachu" ∧
  capitalize_words "pIKACHU" = "PIKACHU".
Proof. split_and!; by vm_compute. Qed.

#[warnings="-inexact-float"]
Lemma height_weight_divided_by_ten_witness :
  normalize_pokemon (H:=strict_runtime) pokeapi (VDict pikachu_fields)
  = Ok pikachu_normalized ∧
  (∀ h, dict_lookup "height" pikachu_fields = Some (VInt h) →
        Pokemon.height pikachu_normalized = (nearest_float h / 10)%float) ∧
  (∀ wt, dict_lookup "weight" pikachu_fields = Some (VInt wt) →
         Pokemon.weight pikachu_normalized = (nearest_float wt / 10)%float) ∧
  (dict_lookup "height" pikachu_fields = Some (VInt 7) →
   Pokemon.height pikachu_normalized = 0.7%float).
Proof.
  split; [by vm_compute|].
  apply (height_weight_divided_by_ten (H:=strict_runtime) pokeapi pikachu_fields).
  by vm_compute.
Defined.

(** A record without a height. *)
Example missing_height_example :
  normalize_pokemon (H:=strict_runtime) nothing_found
    (VDict [("id", VInt 1); ("name", VStr "bulbasaur"); ("weight", VInt 70)])
  = Ok {| Pokemon.id := 1; Pokemon.name := "Bulbasaur"; Pokemon.types := [];
          Pokemon.height := 0%float; Pokemon.weight := 7%float;
          Pokemon.stats := {| Stats.hp := 0; Stats.attack := 0; Stats.defense := 0;
                              Stats.special_attack := 0; Stats.special_defense := 0;
                              Stats.speed := 0 |};
          Pokemon.sprite := Some (SPRITE_BASE +:+ "1.png");
          Pokemon.spriteHD := Some (SPRITE_BASE +:+ "other/official-artwork/1.png");
          Pokemon.evolution := [] |}.
Proof. by vm_compute. Qed.

(** * Further properties of the code *)

(** ** The stages of a chain *)

Section Stages.
Context `{Runtime}.

Lemma new_EvolutionStage_sprite poke_id name sprite stage :
  new_EvolutionStage (VInt poke_id) name (VStr sprite) = Ok stage →
  EvolutionStage.id stage = poke_id ∧ EvolutionStage.sprite stage = Some sprite.
Proof.
  unfold new_EvolutionStage. rewrite validate_int_int, validate_str_str.
  destruct (validate_str name); [|done]. by intros [= <-].
Qed.

Lemma for_each_Forall (P : EvolutionStage.t → Prop) items :
  Forall (λ node, ∀ stages out,
            traverse node stages = Ok out → Forall P stages → Forall P out) items →
  ∀ stages out,
    for_each traverse items stages = Ok out → Forall P stages → Forall P out.
Proof.
  induction 1 as [|item items Hitem _ IH]; intros stages out.
  - by intros [= <-].
  - rewrite for_each_cons. intros Hout Hstages.
    bind_inv Hout as stages' Hstages'. eauto.
Qed.

(** Every stage [traverse] appends carries the sprite URL of its id. *)
Lemma traverse_sprites node stages out :
  traverse node stages = Ok out →
  Forall (λ s, EvolutionStage.sprite s
               = Some (SPRITE_BASE +:+ py_str (VInt (EvolutionStage.id s)) +:+ ".png"))
         stages →
  Forall (λ s, EvolutionStage.sprite s
               = Some (SPRITE_BASE +:+ py_str (VInt (EvolutionStage.id s)) +:+ ".png"))
         out.
Proof.
  revert stages out. induction node as [node IH] using nodes_ind.
  intros stages out. destruct node as [| | | | | |kvs]; try done.
  rewrite traverse_dict.
  destruct (species_of kvs) as [| | | | | |species]; try done.
  destruct (truthy (name_of species)); [|by intros [= <-]].
  cbn zeta. intros Hout Hstages. bind_inv Hout as stage Hstage.
  apply new_EvolutionStage_sprite in Hstage as [Hid Hsprite].
  assert (Forall (λ s, EvolutionStage.sprite s
            = Some (SPRITE_BASE +:+ py_str (VInt (EvolutionStage.id s)) +:+ ".png"))
            (stages ++ [stage])) as Hstages'.
  { apply Forall_app. split; [done|]. constructor; [|done]. by rewrite Hsprite, Hid. }
  destruct (dict_lookup "evolves_to" kvs) as [children|] eqn:Hchildren;
    cbn [visit_children] in Hout; [|by injection Hout as <-].
  destruct children as [| | | |[]|items|[]]; try done;
    try by injection Hout as <-.
  eapply for_each_Forall; [|done..]. by eapply IH.
Qed.

Lemma dedup_distinct stages seen deduped :
  NoDup (ids stages) → (0 ∉ ids stages) →
  (∀ x, x ∈ ids stages → x ∉ seen) →
  snd (foldl dedup_step (seen, deduped) stages) = deduped ++ stages.
Proof.
  revert seen deduped. induction stages as [|s stages IH]; intros seen deduped.
  - intros _ _ _. cbn. by rewrite app_nil_r.
  - cbn [ids map]. intros [Hs Hnodup]%NoDup_cons Hzero Hseen.
    apply not_elem_of_cons in Hzero as [Hz Hzero].
    cbn [foldl]. unfold dedup_step at 2.
    rewrite bool_decide_eq_true_2 by (apply Hseen; left).
    assert ((EvolutionStage.id s =? 0) = false) as -> by (apply Z.eqb_neq; congruence).
    cbn [andb negb]. rewrite IH; [by rewrite <-app_assoc|done|done|].
    intros x Hx [->%elem_of_singleton|Hin]%elem_of_union; [done|].
    by apply (Hseen x); [right|].
Qed.

(** X1.  Every stage [build_evolution_chain] returns carries the sprite
    URL made of its own id: the fixed base, [str(id)] and [.png]. *)
Theorem build_evolution_chain_sprites node out :
  build_evolution_chain node = Ok out →
  Forall (λ s, EvolutionStage.sprite s
               = Some (SPRITE_BASE +:+ py_str (VInt (EvolutionStage.id s)) +:+ ".png"))
         out.
Proof.
  unfold build_evolution_chain. intros Hout. bind_inv Hout as stages Hstages.
  injection Hout as <-.
  pose proof (traverse_sprites _ _ _ Hstages (Forall_nil_2 _)) as Hall.
  pose proof (dedup_invariant_fold stages [] _ dedup_invariant_nil)
    as (_ & _ & _ & Hsub & _).
  rewrite app_nil_l in Hsub. apply Forall_forall. intros s Hs.
  rewrite Forall_forall in Hall. apply Hall.
  eapply elem_of_submseteq; [exact Hs|]. by apply sublist_submseteq.
Qed.

(** X2.  When the ids of the traversal are distinct and none of them is
    0, the loop that removes duplicates drops nothing:
    [build_evolution_chain] returns the traversal itself. *)
Theorem build_evolution_chain_distinct node stages :
  traverse node [] = Ok stages →
  NoDup (ids stages) → (0 ∉ ids stages) →
  build_evolution_chain node = Ok stages.
Proof.
  intros Hstages Hnodup Hzero. unfold build_evolution_chain.
  rewrite Hstages. cbn [mbind result_bind].
  rewrite dedup_distinct; [done..|]. intros x _. apply not_elem_of_empty.
Qed.

End Stages.

(** ** The fields of a Pokemon *)

Section Fields.
Context `{Runtime}.

Lemma new_Pokemon_fields pid name types height weight stats sprite spriteHD evolution p :
  new_Pokemon pid name types height weight stats (VStr sprite) (VStr spriteHD) evolution
  = Ok p →
  validate_int pid = Some (Pokemon.id p) ∧
  mapM validate_str types = Some (Pokemon.types p) ∧
  Pokemon.sprite p = Some sprite ∧ Pokemon.spriteHD p = Some spriteHD.
Proof.
  unfold new_Pokemon. rewrite !validate_str_str.
  destruct (validate_int pid), (validate_str name), (mapM validate_str types); try done.
  by intros [= <-].
Qed.

Lemma normalize_pokemon_fields w kvs p :
  normalize_pokemon w (VDict kvs) = Ok p →
  ∃ items names,
    py_iter (default (VList []) (dict_lookup "types" kvs)) = Ok items ∧
    map_m type_name items = Ok names ∧
    mapM validate_str names = Some (Pokemon.types p) ∧
    validate_int (default VNone (dict_lookup "id" kvs)) = Some (Pokemon.id p) ∧
    Pokemon.sprite p
    = Some (SPRITE_BASE +:+ py_str (default VNone (dict_lookup "id" kvs)) +:+ ".png") ∧
    Pokemon.spriteHD p
    = Some (SPRITE_BASE +:+ "other/official-artwork/" +:+
            py_str (default VNone (dict_lookup "id" kvs)) +:+ ".png").
Proof.
  unfold normalize_pokemon. intros Hp. cbn [py_get] in Hp.
  bind_inv Hp as source Hsource. injection Hsource as <-.
  bind_inv Hp as items Hitems. bind_inv Hp as types Htypes.
  bind_inv Hp as stats Hstats.
  bind_inv Hp as pid Hpid. injection Hpid as <-.
  bind_inv Hp as evolution Hevolution.
  bind_inv Hp as slug_v Hslug. bind_inv Hp as name Hname.
  bind_inv Hp as h Hh. bind_inv Hp as height Hheight.
  bind_inv Hp as wt Hwt. bind_inv Hp as weight Hweight.
  apply new_Pokemon_fields in Hp as (Hid & Hty & Hsprite & Hhd).
  by exists items, types.
Qed.

Lemma map_m_Forall2 {A B} (f : A → result B) l k :
  Forall2 (λ a b, f a = Ok b) l k → map_m f l = Ok k.
Proof.
  induction 1 as [|a b l k Hab _ IH]; [done|].
  cbn [map_m]. by rewrite Hab, IH.
Qed.

Lemma mapM_validate_str names :
  mapM validate_str (VStr <$> names) = Some names.
Proof.
  apply mapM_Some. apply Forall2_fmap_l, Forall_Forall2_diag, Forall_forall.
  intros name _. apply validate_str_str.
Qed.

(** X3.  For a record whose id is an [int], the Pokemon that
    [normalize_pokemon] returns has that id, and its two sprite URLs are the
    fixed bases followed by the decimal form of the id and [.png]. *)
Theorem id_and_sprites_from_source_id w kvs p n :
  normalize_pokemon w (VDict kvs) = Ok p →
  dict_lookup "id" kvs = Some (VInt n) →
  Pokemon.id p = n ∧
  Pokemon.sprite p
  = Some (SPRITE_BASE +:+ NilZero.string_of_int (Z.to_int n) +:+ ".png") ∧
  Pokemon.spriteHD p
  = Some (SPRITE_BASE +:+ "other/official-artwork/" +:+
          NilZero.string_of_int (Z.to_int n) +:+ ".png").
Proof.
  intros (items & names & _ & _ & _ & Hid & Hsprite & Hhd)%normalize_pokemon_fields Hn.
  rewrite Hn in Hid, Hsprite, Hhd. cbn [default from_option Datatypes.id] in *.
  rewrite validate_int_int in Hid. rewrite py_str_int in Hsprite, Hhd.
  split_and!; [congruence|done|done].
Qed.

(** X4.  The types of the Pokemon are the names of the source type
    wrappers, in the order of the source list and unchanged; a record
    without a ["types"] key has no types. *)
Theorem types_in_source_order w kvs p :
  normalize_pokemon w (VDict kvs) = Ok p →
  (dict_lookup "types" kvs = None → Pokemon.types p = []) ∧
  (∀ items names,
     dict_lookup "types" kvs = Some (VList items) →
     Forall2 (λ item name, type_name item = Ok (VStr name)) items names →
     Pokemon.types p = names).
Proof.
  intros (items & names & Hitems & Hnames & Htypes & _)%normalize_pokemon_fields.
  split.
  - intros Hnone. rewrite Hnone in Hitems. injection Hitems as <-.
    injection Hnames as <-. by injection Htypes as <-.
  - intros items' names' Hsome Hshape. rewrite Hsome in Hitems.
    injection Hitems as <-.
    assert (map_m type_name items' = Ok (VStr <$> names')) as Hnames'.
    { apply map_m_Forall2. by apply Forall2_fmap_r. }
    rewrite Hnames' in Hnames. injection Hnames as <-.
    rewrite mapM_validate_str in Htypes. by injection Htypes as <-.
Qed.

(** X5.  When the species record carries no evolution-chain reference (no
    ["evolution_chain"] key, a falsy value under it, or a reference without
    a truthy ["url"]), the evolution list is empty, whatever the upstream
    would answer to any other request. *)
Theorem no_chain_reference_no_evolution w pid species :
  w (SpeciesRequest pid) = Response 200 (Some (VDict species)) →
  (dict_lookup "evolution_chain" species = None ∨
   (∃ reference, dict_lookup "evolution_chain" species = Some reference ∧
                 truthy reference = false) ∨
   (∃ fields, dict_lookup "evolution_chain" species = Some (VDict fields) ∧
              truthy (default VNone (dict_lookup "url" fields)) = false)) →
  lookup_evolution w pid = Ok [].
Proof.
  intros Hspecies Hreference.
  unfold lookup_evolution, fetch_species, fetch_secondary, chain_url_of.
  rewrite Hspecies. cbn [Z.eqb Pos.eqb negb mbind result_bind].
  unfold py_or at 2. destruct species as [|field species].
  - destruct Hreference as [_|[(? & [=] & _)|(? & [=] & _)]]. done.
  - cbn [truthy py_get mbind result_bind].
    destruct Hreference as [->|[(reference & -> & Hfalsy)|(fields & -> & Hfalsy)]].
    + done.
    + cbn [default from_option Datatypes.id]. unfold py_or. rewrite Hfalsy.
      done.
    + cbn [default from_option Datatypes.id]. unfold py_or.
      destruct fields as [|f fields]; [done|].
      cbn [truthy py_get mbind result_bind]. by rewrite Hfalsy.
Qed.

(** X6.  [normalize_pokemon] returns only for a record that is an object
    whose name, if present, is a [str] and whose height and weight, if
    present, are numbers; for any other record it raises. *)
Theorem normalize_pokemon_needs_typed_fields w raw p :
  normalize_pokemon w raw = Ok p →
  ∃ kvs,
    raw = VDict kvs ∧
    is_str (default (VStr "") (dict_lookup "name" kvs)) = true ∧
    numeric (default (VInt 0) (dict_lookup "height" kvs)) = true ∧
    numeric (default (VInt 0) (dict_lookup "weight" kvs)) = true.
Proof.
  intros (kvs & slug & -> & _ & _ & Hslug & _ & Hheight & Hweight)%normalize_pokemon_Ok.
  exists kvs. rewrite Hslug. split_and!; [done|done| |].
  - unfold py_truediv in Hheight.
    by destruct (default (VInt 0) (dict_lookup "height" kvs)).
  - unfold py_truediv in Hweight.
    by destruct (default (VInt 0) (dict_lookup "weight" kvs)).
Qed.

End Fields.

(** ** The endpoints *)

Lemma to_lower_idempotent a : to_lower (to_lower a) = to_lower a.
Proof. by destruct a as [[] [] [] [] [] [] [] []]. Qed.

Lemma py_lower_idempotent s : py_lower (py_lower s) = py_lower s.
Proof.
  induction s as [|a s IH]; [done|].
  cbn [py_lower]. by rewrite to_lower_idempotent, IH.
Qed.

Lemma reply_bind_Returns {A B} (m : reply A) (k : A → reply B) b :
  m ≫= k = Returns b → ∃ a, m = Returns a ∧ k a = Returns b.
Proof. destruct m as [a|e]; [by exists a|done]. Qed.

Lemma py_take_length n s : (String.length (py_take n s) ≤ n)%nat.
Proof.
  revert s. induction n as [|n IH]; intros [|a s]; cbn [py_take String.length]; try lia.
  specialize (IH s). lia.
Qed.

Lemma py_take_all n s : (String.length s ≤ n)%nat → py_take n s = s.
Proof.
  revert s. induction n as [|n IH]; intros [|a s]; cbn [py_take String.length];
    try done; try lia.
  intros Hlen. rewrite IH; [done|lia].
Qed.

Lemma py_take_prefix n s : ∃ rest, s = py_take n s +:+ rest.
Proof.
  revert s. induction n as [|n IH]; intros s.
  - exists s. by destruct s.
  - destruct s as [|a s]; [by exists ""|].
    destruct (IH s) as [rest Hrest]. exists rest.
    cbn [py_take]. by rewrite append_String, <-Hrest.
Qed.

Section EndpointProperties.
Context `{Runtime}.



Lemma lookup_evolution_ext u u' pid :
  (∀ req, u req = u' req) → lookup_evolution u pid = lookup_evolution u' pid.
Proof.
  intros Hext. unfold lookup_evolution, fetch_species, fetch_evolution_chain,
    fetch_secondary.
  rewrite (Hext (SpeciesRequest pid)).
  destruct (u' (SpeciesRequest pid)) as [|status_code json]; [done|].
  destruct (negb (status_code =? 200)), json as [body|];
    cbn [mbind result_bind]; try done.
  all: destruct (chain_url_of _) as [url|]; cbn [mbind result_bind]; [|done].
  all: by rewrite (Hext (UrlRequest url)).
Qed.

Lemma normalize_pokemon_ext u u' raw :
  (∀ req, u req = u' req) → normalize_pokemon u raw = normalize_pokemon u' raw.
Proof.
  intros Hext. unfold normalize_pokemon.
  destruct (py_get raw "types" (VList [])) as [source|]; cbn [mbind result_bind]; [|done].
  destruct (py_iter source) as [items|]; cbn [mbind result_bind]; [|done].
  destruct (map_m _ items) as [types|]; cbn [mbind result_bind]; [|done].
  destruct (build_stats raw) as [stats|]; cbn [mbind result_bind]; [|done].
  destruct (py_get raw "id" VNone) as [pid|]; cbn [mbind result_bind]; [|done].
  by rewrite (lookup_evolution_ext u u' pid Hext).
Qed.

(** X8.  [get_pokemon] and [cache_pokemon] make their request for the base
    record with the identifier in lower case, and with no other form of it:
    for an identifier of ASCII characters, two upstreams that answer that
    request and the secondary lookups alike give the same outcome, whatever
    they answer to the identifier as it was written. *)
Theorem identifier_is_lowercased w w' create_document poke :
  ascii_only poke = true →
  w (PokemonRequest (VStr (py_lower poke))) = w' (PokemonRequest (VStr (py_lower poke))) →
  (∀ req, w (SecondaryRequest req) = w' (SecondaryRequest req)) →
  get_pokemon w poke = get_pokemon w' poke ∧
  cache_pokemon w create_document poke = cache_pokemon w' create_document poke.
Proof.
  intros _ Hbase Hsecondary.
  assert (fetch_pokemon_basic w (VStr (py_lower poke))
          = fetch_pokemon_basic w' (VStr (py_lower poke))) as Hfetch
    by (unfold fetch_pokemon_basic; by rewrite Hbase).
  assert (∀ raw, normalize_pokemon (secondary w) raw
                 = normalize_pokemon (secondary w') raw) as Hnormalize
    by (intros raw; by apply normalize_pokemon_ext).
  unfold get_pokemon, cache_pokemon. rewrite Hfetch.
  destruct (fetch_pokemon_basic w' (VStr (py_lower poke))) as [raw|]; [|done].
  cbn [mbind reply_bind]. by rewrite Hnormalize.
Qed.

(** X9.  Whether the write to the document sink raises or not,
    [cache_pokemon] fails exactly as [get_pokemon] does, and otherwise
    reports ["ok"] with the id and the name of the Pokemon [get_pokemon]
    returns. *)
Theorem cache_pokemon_ignores_the_sink w create_document poke :
  cache_pokemon w create_document poke
  = (p ← get_pokemon w poke;
     Returns {| CacheResponse.status := "ok"; CacheResponse.id := Pokemon.id p;
                CacheResponse.name := Pokemon.name p |}).
Proof.
  unfold cache_pokemon, get_pokemon.
  destruct (fetch_pokemon_basic w (VStr (py_lower poke))) as [raw|];
    cbn [mbind reply_bind]; [|done].
  destruct (normalize_pokemon (secondary w) raw) as [p|];
    cbn [lift mbind reply_bind]; [|done].
  by destruct (create_document "pokemon" p).
Qed.

Lemma list_pokemon_Returns w limit offset type q pokes :
  list_pokemon w limit offset type q = Returns pokes ↔
  ∃ kvs items,
    w (ListRequest limit offset) = Response 200 (Some (VDict kvs)) ∧
    py_iter (default (VList []) (dict_lookup "results" kvs)) = Ok items ∧
    pokes = omap (list_item w type q) items.
Proof.
  unfold list_pokemon. split.
  - destruct (w (ListRequest limit offset)) as [|status_code json]; [done|].
    destruct (Z.eqb_spec status_code 200) as [->|]; [|done]. cbn [negb].
    destruct json as [body|]; [|done].
    destruct body as [| | | | | |kvs]; try done. cbn [py_get lift mbind reply_bind].
    destruct (py_iter _) as [items|] eqn:Hitems; [|done]. cbn [lift mbind reply_bind].
    intros [= <-]. exists kvs, items. split_and!; [done|exact Hitems|done].
  - intros (kvs & items & -> & Hitems & ->).
    cbn [Z.eqb Pos.eqb negb py_get lift mbind reply_bind]. by rewrite Hitems.
Qed.

(** X10.  [list_pokemon] returns exactly when the listing request is
    answered with the status 200 and an object whose ["results"] can be
    iterated over: no item can make it raise.  A listing answered with
    another status gives [HTTPException] with the status 502. *)
Theorem list_pokemon_returns_iff_listing_succeeds w limit offset type q :
  ((∃ pokes, list_pokemon w limit offset type q = Returns pokes) ↔
   (∃ kvs items,
      w (ListRequest limit offset) = Response 200 (Some (VDict kvs)) ∧
      py_iter (default (VList []) (dict_lookup "results" kvs)) = Ok items)) ∧
  (∀ status_code json,
     w (ListRequest limit offset) = Response status_code json → status_code ≠ 200 →
     list_pokemon w limit offset type q
     = Fails (HTTPException 502 "Failed to fetch list from PokeAPI")).
Proof.
  split; [split|].
  - intros [pokes (kvs & items & ? & ? & _)%list_pokemon_Returns]. eauto.
  - intros (kvs & items & Hw & Hitems). eexists.
    apply list_pokemon_Returns. eauto.
  - intros status_code json Hw Hstatus. unfold list_pokemon. rewrite Hw.
    apply Z.eqb_neq in Hstatus. by rewrite Hstatus.
Qed.

Lemma list_item_Some w type q item p :
  list_item w type q item = Some p ↔
  fetch_item w item = Returns p ∧ filtered_out type q p = false.
Proof.
  unfold list_item. destruct (fetch_item w item) as [p'|e].
  - destruct (filtered_out type q p') eqn:Hf.
    + split; [done|]. intros [[= ->] Hkept]. congruence.
    + split; [by intros [= ->]|]. by intros [[= ->] _].
  - split; [done|]. by intros [[=] _].
Qed.

Lemma given_Some x s : given x = Some s ↔ x = Some s ∧ s ≠ "".
Proof.
  unfold given. destruct x as [t|]; [|split; [done|by intros [[=] _]]].
  destruct (String.eqb_spec t "") as [->|Hne].
  - split; [done|]. by intros [[= <-] Hs].
  - split; [by intros [= <-]|]. by intros [[= <-] _].
Qed.

(** X11.  Every Pokemon [list_pokemon] returns passes the filters: its
    types contain a non-empty [type] parameter, and, for a [q] parameter
    and a name of ASCII characters, its name contains a non-empty [q], both
    compared in lower case. *)
Theorem list_pokemon_applies_the_filters w limit offset type q pokes :
  list_pokemon w limit offset type q = Returns pokes →
  ∀ p, p ∈ pokes →
    (∀ t, type = Some t → t ≠ "" → t ∈ Pokemon.types p) ∧
    (∀ s, q = Some s → s ≠ "" →
          ascii_only s = true → ascii_only (Pokemon.name p) = true →
          contains (py_lower s) (py_lower (Pokemon.name p)) = true).
Proof.
  intros (kvs & items & _ & _ & ->)%list_pokemon_Returns p
    (item & _ & (_ & Hkept)%list_item_Some)%list_elem_of_omap.
  unfold filtered_out in Hkept. apply orb_false_iff in Hkept as [Htype Hq].
  split.
  - intros t -> Ht.
    assert (given (Some t) = Some t) as Hgiven by by apply given_Some.
    rewrite Hgiven in Htype. apply negb_false_iff in Htype.
    by apply bool_decide_eq_true in Htype.
  - intros s -> Hs _ _.
    assert (given (Some s) = Some s) as Hgiven by by apply given_Some.
    rewrite Hgiven in Hq. by apply negb_false_iff in Hq.
Qed.

Lemma omap_list_item_sublist w type q items :
  omap (list_item w type q) items `sublist_of` omap (list_item w None None) items.
Proof.
  induction items as [|item items IH]; [done|]. cbn [omap list_omap].
  destruct (list_item w type q item) as [p|] eqn:Hkept.
  - apply list_item_Some in Hkept as [Hp _].
    assert (list_item w None None item = Some p) as ->
      by by apply list_item_Some.
    by apply sublist_skip.
  - destruct (list_item w None None item); [by apply sublist_cons|done].
Qed.

(** X12.  What [list_pokemon] returns with filters is a subsequence of
    what it returns without them, and an empty string as a filter is no
    filter. *)
Theorem filtered_listing_is_a_sublist w limit offset type q :
  (∀ pokes,
     list_pokemon w limit offset type q = Returns pokes →
     ∃ all, list_pokemon w limit offset None None = Returns all ∧
            pokes `sublist_of` all) ∧
  list_pokemon w limit offset (Some "") (Some "") = list_pokemon w limit offset None None.
Proof.
  split; [|done].
  intros pokes (kvs & items & Hw & Hitems & ->)%list_pokemon_Returns.
  exists (omap (list_item w None None) items). split.
  - apply list_pokemon_Returns. by exists kvs, items.
  - apply omap_list_item_sublist.
Qed.

(** X13.  An item of the listing for which the lookup of its name, the
    fetch of its base record or the normalisation fails is left out, and
    the items before and after it are listed as if it were not there. *)
Theorem failing_item_is_skipped w limit offset type q kvs before item after e :
  w (ListRequest limit offset) = Response 200 (Some (VDict kvs)) →
  dict_lookup "results" kvs = Some (VList (before ++ item :: after)) →
  fetch_item w item = Fails e →
  list_pokemon w limit offset type q
  = Returns (omap (list_item w type q) before ++ omap (list_item w type q) after).
Proof.
  intros Hw Hresults Hitem. apply list_pokemon_Returns.
  exists kvs, (before ++ item :: after). rewrite Hresults. split_and!; [done|done|].
  assert (list_item w type q item = None) as Hnone
    by (unfold list_item; by rewrite Hitem).
  rewrite omap_app. cbn [omap list_omap]. by rewrite Hnone.
Qed.

End EndpointProperties.

(** X14.  When [list_collection_names] raises with a message of ASCII
    characters, [test_database] reports the error with at most the first 80
    characters of the message (the whole message when it is no longer), and
    the report still says ["Connected"], with no collections. *)
Theorem test_database_reports_the_error getenv message :
  ascii_only message = true →
  let report := test_database getenv (Database (inl message)) in
  StatusReport.database report = "⚠️ Error: " +:+ py_take 80 message ∧
  (String.length (py_take 80 message) ≤ 80)%nat ∧
  (∃ rest, message = py_take 80 message +:+ rest) ∧
  ((String.length message ≤ 80)%nat → py_take 80 message = message) ∧
  StatusReport.connection_status report = "Connected" ∧
  StatusReport.collections report = [].
Proof.
  intros _. cbn zeta. split_and!; try done.
  - apply py_take_length.
  - apply py_take_prefix.
  - apply py_take_all.
Qed.

(** ** The id in a species URL *)

Lemma scan_digits_first acc ndigits d :
  d ≠ Decimal.Nil →
  scan_digits acc ndigits true (NilEmpty.string_of_uint d)
  = scan_digits acc ndigits false (NilEmpty.string_of_uint d).
Proof. by destruct d. Qed.

Lemma scan_digits_pos d p ndigits :
  scan_digits (Z.pos p) ndigits false (NilEmpty.string_of_uint d)
  = Some (Z.pos (Pos.of_uint_acc d p), (ndigits + Decimal.nb_digits d)%nat, "").
Proof.
  revert p ndigits.
  induction d as [|d IH|d IH|d IH|d IH|d IH|d IH|d IH|d IH|d IH|d IH];
    intros p ndigits;
    cbn [NilEmpty.string_of_uint scan_digits Decimal.nb_digits Pos.of_uint_acc];
    [by rewrite Nat.add_0_r|..];
    change (is_digit _) with true; cbn match;
    rewrite Nat.add_succ_r, <-(IH _ (S ndigits)); f_equal;
    try match goal with
        | |- context [digit_value ?a] =>
            let v := eval vm_compute in (digit_value a) in
            change (digit_value a) with v
        end;
    lia.
Qed.

Lemma scan_digits_zero d ndigits :
  scan_digits 0 ndigits false (NilEmpty.string_of_uint d)
  = Some (Z.of_N (Pos.of_uint d), (ndigits + Decimal.nb_digits d)%nat, "").
Proof.
  revert ndigits.
  induction d as [|d IH|d IH|d IH|d IH|d IH|d IH|d IH|d IH|d IH|d IH];
    intros ndigits;
    cbn [NilEmpty.string_of_uint scan_digits Decimal.nb_digits Pos.of_uint];
    [by rewrite Nat.add_0_r|..];
    change (is_digit _) with true; cbn match; rewrite Nat.add_succ_r;
    match goal with
    | |- context [digit_value ?a] =>
        let v := eval vm_compute in (digit_value a) in
        change (digit_value a) with v
    end;
    cbn [Z.mul Z.add Z.of_N];
    [apply IH|exact (scan_digits_pos _ _ _)..].
Qed.

Lemma string_of_uint_length d :
  String.length (NilEmpty.string_of_uint d) = Decimal.nb_digits d.
Proof. induction d; cbn [NilEmpty.string_of_uint String.length Decimal.nb_digits]; congruence. Qed.

Lemma string_of_uint_no_slash d : no_char "/" (NilEmpty.string_of_uint d) = true.
Proof. induction d; cbn [NilEmpty.string_of_uint no_char]; try done; by rewrite IHd. Qed.

Lemma string_of_uint_unsigned d :
  d ≠ Decimal.Nil →
  split_sign (lstrip_space (NilEmpty.string_of_uint d))
  = (false, NilEmpty.string_of_uint d).
Proof. by destruct d. Qed.

Lemma string_of_int_no_slash n : no_char "/" (NilZero.string_of_int (Z.to_int n)) = true.
Proof.
  destruct n as [|p|p]; [done|..]; cbn [Z.to_int NilZero.string_of_int].
  - unfold NilZero.string_of_uint.
    pose proof (string_of_uint_no_slash (Pos.to_uint p)). by destruct (Pos.to_uint p).
  - unfold NilZero.string_of_uint. cbn [no_char].
    pose proof (string_of_uint_no_slash (Pos.to_uint p)). by destruct (Pos.to_uint p).
Qed.

Lemma string_of_int_not_empty n : NilZero.string_of_int (Z.to_int n) ≠ "".
Proof.
  destruct n as [|p|p]; [done| |done]. cbn [Z.to_int NilZero.string_of_int].
  pose proof (DecimalPos.Unsigned.to_uint_nonnil p). by destruct (Pos.to_uint p).
Qed.

Section IntOfStr.
Context `{Runtime}.

Lemma py_int_digits d :
  d ≠ Decimal.Nil → (Decimal.nb_digits d ≤ 640)%nat →
  py_int (NilEmpty.string_of_uint d) = Some (Z.of_N (Pos.of_uint d)) ∧
  py_int (String "-" (NilEmpty.string_of_uint d)) = Some (- Z.of_N (Pos.of_uint d)).
Proof.
  intros Hd Hlen. unfold py_int.
  change (lstrip_space (String "-" ?s)) with (String "-" s).
  cbn [split_sign]. rewrite (string_of_uint_unsigned _ Hd).
  rewrite scan_digits_first, scan_digits_zero by done.
  cbn [mbind option_bind all_space]. by rewrite digits_allowed_small, andb_true_r.
Qed.

(** [int(str(n))] is [n]. *)
Lemma py_int_of_str n :
  (String.length (NilZero.string_of_int (Z.to_int n)) ≤ 640)%nat →
  py_int (NilZero.string_of_int (Z.to_int n)) = Some n.
Proof.
  destruct n as [|p|p]; cbn [Z.to_int NilZero.string_of_int].
  - intros Hlen. by rewrite py_int_short.
  - pose proof (DecimalPos.Unsigned.to_uint_nonnil p) as Hnil.
    pose proof (DecimalPos.Unsigned.of_to p) as Hp.
    assert (NilZero.string_of_uint (Pos.to_uint p)
            = NilEmpty.string_of_uint (Pos.to_uint p)) as ->
      by by destruct (Pos.to_uint p).
    rewrite string_of_uint_length. intros Hlen.
    destruct (py_int_digits _ Hnil Hlen) as [-> _]. by rewrite Hp.
  - pose proof (DecimalPos.Unsigned.to_uint_nonnil p) as Hnil.
    pose proof (DecimalPos.Unsigned.of_to p) as Hp.
    assert (NilZero.string_of_uint (Pos.to_uint p)
            = NilEmpty.string_of_uint (Pos.to_uint p)) as ->
      by by destruct (Pos.to_uint p).
    cbn [String.length]. rewrite string_of_uint_length. intros Hlen.
    destruct (py_int_digits _ Hnil) as [_ ->]; [lia|]. by rewrite Hp.
Qed.

(** X15.  A node whose species URL ends in a slash, the decimal form of
    [n] and any number of slashes gets the id [n] ([int] undoes [str]), and
    with it the sprite URL of [n]. *)
Theorem id_of_numbered_url species name before trailing n :
  dict_lookup "url" species
  = Some (VStr (before +:+ "/" +:+ NilZero.string_of_int (Z.to_int n) +:+ trailing)) →
  all_char "/" trailing = true →
  (String.length (NilZero.string_of_int (Z.to_int n)) ≤ 640)%nat →
  EvolutionStage.id (stage_of species name) = n ∧
  EvolutionStage.sprite (stage_of species name)
  = Some (SPRITE_BASE +:+ NilZero.string_of_int (Z.to_int n) +:+ ".png").
Proof.
  intros Hurl Htrailing Hlen.
  assert (EvolutionStage.id (stage_of species name) = n) as Hid.
  { rewrite stage_of_id, Hurl. cbn [default from_option Datatypes.id poke_id_of].
    rewrite (trailing_piece_is_last_segment _ (NilZero.string_of_int (Z.to_int n))).
    - by rewrite py_int_of_str.
    - exists (before +:+ "/"), trailing. split_and!.
      + by rewrite append_assoc.
      + apply string_of_int_not_empty.
      + apply string_of_int_no_slash.
      + done.
      + right. by exists before. }
  split; [done|]. unfold stage_of in *. cbn [EvolutionStage.id EvolutionStage.sprite] in *.
  by rewrite Hid, py_str_int.
Qed.

End IntOfStr.

(** ** The properties above on the sample data *)

Lemma build_evolution_chain_sprites_witness :
  Forall (λ s, EvolutionStage.sprite s
               = Some (SPRITE_BASE +:+ @py_str strict_runtime (VInt (EvolutionStage.id s))
                       +:+ ".png"))
         [link_stage "one" 1; link_stage "two" 2; link_stage "four" 4;
          link_stage "three" 3].
Proof.
  apply (build_evolution_chain_sprites (H:=strict_runtime) reconverging_chain).
  by vm_compute.
Defined.

Lemma build_evolution_chain_distinct_witness :
  build_evolution_chain (H:=strict_runtime) pichu_chain
  = Ok [link_stage "pichu" 172; link_stage "pikachu" 25; link_stage "raichu" 26].
Proof.
  apply (build_evolution_chain_distinct (H:=strict_runtime) pichu_chain).
  - by vm_compute.
  - apply (bool_decide_unpack _). by vm_compute.
  - apply (bool_decide_unpack _). by vm_compute.
Defined.

Lemma id_and_sprites_from_source_id_witness :
  Pokemon.id pikachu_normalized = 25 ∧
  Pokemon.sprite pikachu_normalized
  = Some (SPRITE_BASE +:+ NilZero.string_of_int (Z.to_int 25) +:+ ".png") ∧
  Pokemon.spriteHD pikachu_normalized
  = Some (SPRITE_BASE +:+ "other/official-artwork/" +:+
          NilZero.string_of_int (Z.to_int 25) +:+ ".png").
Proof.
  apply (id_and_sprites_from_source_id (H:=strict_runtime) pokeapi pikachu_fields).
  - by vm_compute.
  - reflexivity.
Defined.

Lemma types_in_source_order_witness :
  (dict_lookup "types" mr_mime_fields = None → Pokemon.types mr_mime_normalized = []) ∧
  (∀ items names,
     dict_lookup "types" mr_mime_fields = Some (VList items) →
     Forall2 (λ item name, type_name item = Ok (VStr name)) items names →
     Pokemon.types mr_mime_normalized = names).
Proof.
  apply (types_in_source_order (H:=strict_runtime) pokeapi mr_mime_fields).
  by vm_compute.
Defined.

Lemma no_chain_reference_no_evolution_witness :
  lookup_evolution (H:=strict_runtime)
    (λ _, Response 200 (Some (VDict [("name", VStr "pikachu")]))) (VInt 25) = Ok [].
Proof.
  apply (no_chain_reference_no_evolution (H:=strict_runtime)
           (λ _, Response 200 (Some (VDict [("name", VStr "pikachu")])))
           (VInt 25) [("name", VStr "pikachu")]).
  - reflexivity.
  - left. reflexivity.
Defined.

Lemma normalize_pokemon_needs_typed_fields_witness :
  ∃ kvs,
    pikachu = VDict kvs ∧
    is_str (default (VStr "") (dict_lookup "name" kvs)) = true ∧
    numeric (default (VInt 0) (dict_lookup "height" kvs)) = true ∧
    numeric (default (VInt 0) (dict_lookup "weight" kvs)) = true.
Proof.
  apply (normalize_pokemon_needs_typed_fields (H:=strict_runtime) pokeapi pikachu
           pikachu_normalized).
  by vm_compute.
Defined.


Lemma list_pokemon_applies_the_filters_witness :
  list_pokemon (H:=strict_runtime) service 50 0 (Some "fairy") (Some "MIME")
  = Returns [mr_mime_normalized] ∧
  (∀ p, p ∈ [mr_mime_normalized] →
     (∀ t, Some "fairy" = Some t → t ≠ "" → t ∈ Pokemon.types p) ∧
     (∀ s, Some "MIME" = Some s → s ≠ "" →
           ascii_only s = true → ascii_only (Pokemon.name p) = true →
           contains (py_lower s) (py_lower (Pokemon.name p)) = true)).
Proof.
  split; [by vm_compute|].
  apply (list_pokemon_applies_the_filters (H:=strict_runtime) service 50 0
           (Some "fairy") (Some "MIME")).
  by vm_compute.
Defined.

Lemma failing_item_is_skipped_witness :
  list_pokemon (H:=strict_runtime) service 50 0 None None
  = Returns (omap (list_item service None None) [VDict [("name", VStr "pikachu")]]
             ++ omap (list_item service None None) [VDict [("name", VStr "mr-mime")]]).
Proof.
  apply (failing_item_is_skipped (H:=strict_runtime) service 50 0 None None
           [("count", VInt 3);
            ("results", VList [VDict [("name", VStr "pikachu")];
                               VDict [("name", VStr "missingno")];
                               VDict [("name", VStr "mr-mime")]])]
           [VDict [("name", VStr "pikachu")]]
           (VDict [("name", VStr "missingno")])
           [VDict [("name", VStr "mr-mime")]]
           (HTTPException 404 "Pokémon not found")).
  - reflexivity.
  - reflexivity.
  - by vm_compute.
Defined.

Lemma id_of_numbered_url_witness :
  EvolutionStage.id
    (stage_of (H:=strict_runtime)
       [("name", VStr "pikachu");
        ("url", VStr "https://pokeapi.co/api/v2/pokemon-species/25/")] "pikachu") = 25 ∧
  EvolutionStage.sprite
    (stage_of (H:=strict_runtime)
       [("name", VStr "pikachu");
        ("url", VStr "https://pokeapi.co/api/v2/pokemon-species/25/")] "pikachu")
  = Some (SPRITE_BASE +:+ NilZero.string_of_int (Z.to_int 25) +:+ ".png").
Proof.
  apply (id_of_numbered_url (H:=strict_runtime) _ "pikachu"
           "https://pokeapi.co/api/v2/pokemon-species" "/" 25).
  - reflexivity.
  - reflexivity.
  - cbn. lia.
Defined.

Lemma identifier_is_lowercased_witness :
  ascii_only "PikaChu" = true ∧
  get_pokemon (H:=strict_runtime) service "PikaChu"
  = get_pokemon
      (λ req, match req with
              | PokemonRequest (VStr "PikaChu") => NoResponse
              | _ => service req
              end) "PikaChu" ∧
  cache_pokemon (H:=strict_runtime) service (λ _ _, Ok ()) "PikaChu"
  = cache_pokemon
      (λ req, match req with
              | PokemonRequest (VStr "PikaChu") => NoResponse
              | _ => service req
              end) (λ _ _, Ok ()) "PikaChu".
Proof.
  split; [reflexivity|].
  apply (identifier_is_lowercased (H:=strict_runtime) service
           (λ req, match req with
                   | PokemonRequest (VStr "PikaChu") => NoResponse
                   | _ => service req
                   end) (λ _ _, Ok ()) "PikaChu").
  - reflexivity.
  - reflexivity.
  - intros req. reflexivity.
Defined.

Lemma test_database_reports_the_error_witness :
  ascii_only "connection refused" = true ∧
  StatusReport.database
    (test_database (λ _, None) (Database (inl "connection refused")))
  = "⚠️ Error: " +:+ py_take 80 "connection refused" ∧
  (String.length (py_take 80 "connection refused") ≤ 80)%nat ∧
  (∃ rest, "connection refused" = py_take 80 "connection refused" +:+ rest) ∧
  ((String.length "connection refused" ≤ 80)%nat →
   py_take 80 "connection refused" = "connection refused") ∧
  StatusReport.connection_status
    (test_database (λ _, None) (Database (inl "connection refused"))) = "Connected" ∧
  StatusReport.collections
    (test_database (λ _, None) (Database (inl "connection refused"))) = [].
Proof.
  split; [reflexivity|].
  apply (test_database_reports_the_error (λ _, None) "connection refused").
  reflexivity.
Defined.
